(** * Vienna Cabaret Theater API: reservation flow, schemas and queries

    A shallow embedding of [src/schemas.py] and [src/main.py].  Python
    dictionaries and MongoDB documents are finite maps from field names to
    values, a collection is the list of its documents in natural order, and
    the handlers run in a state-and-exception monad over the database, the
    system clock and the identifier generator. *)

From Stdlib Require Import ZArith QArith Lia Bool List Ascii String.
From Stdlib Require Import Floats.PrimFloat Floats.FloatOps Floats.SpecFloat.
From stdpp Require Import gmap strings list pretty sorting.

Local Open Scope string_scope.
Local Open Scope Z_scope.

(** ** Python values *)

(** [datetime.datetime], naive (no time zone), as [datetime.utcnow()] returns it. *)
Record datetime := Datetime {
  year : Z; month : Z; day : Z;
  hour : Z; minute : Z; second : Z; microsecond : Z }.

(** The values that occur in the documents of this program: [None], [int],
    [float] (binary64), [str], [datetime] and [bson.ObjectId].  An ObjectId
    is kept as the lower-case hexadecimal text that [str()] gives for it. *)
Inductive value :=
| VNone
| VInt (n : Z)
| VFloat (f : float)
| VStr (s : string)
| VDate (t : datetime)
| VOid (hex : string).

(** A Python [dict] with string keys; also a BSON document. *)
Abbreviation doc := (gmap string value).

(** [d.get(k, default)] *)
Definition dict_get (d : doc) (k : string) (default : value) : value :=
  match d !! k with Some v => v | None => default end.

(** Truth value of the result of [find_one]: [None] and the empty dict are false. *)
Definition truthy (o : option doc) : bool :=
  match o with
  | None => false
  | Some d => negb (bool_decide (d = ∅))
  end.

(** *** Text helpers *)

Fixpoint zfill_go (n : nat) (s : string) : string :=
  match n with
  | O => s
  | S n' => zfill_go n' (String "0"%char s)
  end.

(** [s.zfill(width)] for an unsigned numeral [s]. *)
Definition zfill (width : nat) (s : string) : string :=
  zfill_go (width - String.length s) s.

(** [%0<width>d] for a non-negative number. *)
Definition fmt_d (width : nat) (n : Z) : string := zfill width (pretty n).

Definition is_digit (c : ascii) : bool :=
  let n := N_of_ascii c in ((48 <=? n) && (n <=? 57))%N.

Definition digit_val (c : ascii) : Z := Z.of_N (N_of_ascii c) - 48.

(** White space as [int()] skips it around an ASCII numeral
    ([Py_ISSPACE]): TAB, LF, VT, FF, CR and the space. *)
Definition is_space (c : ascii) : bool :=
  let n := N_of_ascii c in
  (((9 <=? n) && (n <=? 13)) || (n =? 32))%N.

Fixpoint lstrip (l : list ascii) : list ascii :=
  match l with
  | c :: l' => if is_space c then lstrip l' else l
  | [] => []
  end.

Definition strip (l : list ascii) : list ascii :=
  rev (lstrip (rev (lstrip l))).

(** Text is held as its UTF-8 bytes; the code points of a text.  [None]
    for bytes that are no text. *)
Fixpoint utf8_decode (l : list N) : option (list N) :=
  let cont b := ((128 <=? b) && (b <? 192))%N in
  match l with
  | [] => Some []
  | b :: l1 =>
      if (b <? 128)%N then cons b <$> utf8_decode l1
      else match l1 with
      | c1 :: l2 =>
          if ((192 <=? b) && (b <? 224) && cont c1)%N
          then cons ((b - 192) * 64 + (c1 - 128))%N <$> utf8_decode l2
          else match l2 with
          | c2 :: l3 =>
              if ((224 <=? b) && (b <? 240) && cont c1 && cont c2)%N
              then cons ((b - 224) * 4096 + (c1 - 128) * 64 + (c2 - 128))%N
                     <$> utf8_decode l3
              else match l3 with
              | c3 :: l4 =>
                  if ((240 <=? b) && (b <? 248) && cont c1 && cont c2 && cont c3)%N
                  then cons ((b - 240) * 262144 + (c1 - 128) * 4096
                             + (c2 - 128) * 64 + (c3 - 128))%N
                         <$> utf8_decode l4
                  else None
              | [] => None
              end
          | [] => None
          end
      | [] => None
      end
  end.

(** The code points of the digit zero of every decimal digit system beyond
    ASCII (Unicode 14.0, category Nd); the nine that follow each are its
    digits one to nine. *)
Definition unicode_zeros : list N :=
  [
   1632; 1776; 1984; 2406; 2534; 2662; 2790; 2918;
   3046; 3174; 3302; 3430; 3558; 3664; 3792; 3872;
   4160; 4240; 6112; 6160; 6470; 6608; 6784; 6800;
   6992; 7088; 7232; 7248; 42528; 43216; 43264; 43472;
   43504; 43600; 44016; 65296; 66720; 68912; 69734; 69872;
   69942; 70096; 70384; 70736; 70864; 71248; 71360; 71472;
   71904; 72016; 72784; 73040; 73120; 92768; 92864; 93008;
   120782; 120792; 120802; 120812; 120822; 123200; 123632; 125264;
   130032]%N.

(** [Py_UNICODE_TODECIMAL] beyond ASCII. *)
Definition unicode_decimal (cp : N) : option N :=
  (λ z, cp - z)%N <$> find (λ z, (z <=? cp) && (cp <? z + 10))%N unicode_zeros.

(** [Py_UNICODE_ISSPACE] beyond ASCII. *)
Definition unicode_space (cp : N) : bool :=
  bool_decide (cp ∈ [133; 160; 5760; 8232; 8233; 8239; 8287; 12288]%N)
  || ((8192 <=? cp) && (cp <=? 8202))%N.

(** What [int()] makes of one character of a text before it reads the
    numeral: ASCII stays, other white space becomes a space, another
    system's decimal digit becomes the ASCII digit, and anything else ends
    the conversion with [ValueError]. *)
Definition decimal_char (cp : N) : option ascii :=
  if (cp <? 128)%N then Some (ascii_of_N cp)
  else if unicode_space cp then Some " "%char
  else (λ d, ascii_of_N (48 + d)) <$> unicode_decimal cp.

(** The digits of a decimal literal: single underscores may separate digits. *)
Fixpoint digits_value (acc : Z) (after_digit : bool) (l : list ascii) : option Z :=
  match l with
  | [] => if after_digit then Some acc else None
  | c :: l' =>
      if is_digit c then digits_value (10 * acc + digit_val c) true l'
      else if Ascii.eqb c "_"%char
           then (if after_digit then digits_value acc false l' else None)
           else None
  end.

(** The limit on the digits of a numeral that [int()] converts
    ([sys.int_info.default_max_str_digits]). *)
Definition max_str_digits : nat := 4300.

Definition decimal_value (l : list ascii) : option Z :=
  if (length (List.filter is_digit l) <=? max_str_digits)%nat
  then digits_value 0 false l else None.

(** [int(s)] for a string, base 10; [None] stands for [ValueError]. *)
Definition int_of_str (s : string) : option Z :=
  cps ← utf8_decode (N_of_ascii <$> list_ascii_of_string s);
  l ← mapM decimal_char cps;
  match strip l with
  | "-"%char :: l => Z.opp <$> decimal_value l
  | "+"%char :: l => decimal_value l
  | l => decimal_value l
  end.

(** [int(f)] for a float: truncation towards zero; infinities and NaN raise. *)
Definition int_of_float (f : float) : option Z :=
  match Prim2SF f with
  | S754_zero _ => Some 0
  | S754_finite s m e =>
      let a := Z.shiftl (Z.pos m) e in
      Some (if s then - a else a)
  | S754_infinity _ | S754_nan => None
  end.

(** [float(n)] for an int: the nearest binary64 value, ties to even. *)
Definition float_of_Z (n : Z) : float :=
  SF2Prim (binary_normalize prec emax n 0 false).

(** [int(v)]; [None] stands for the [TypeError], [ValueError] or
    [OverflowError] that Python raises. *)
Definition py_int (v : value) : option Z :=
  match v with
  | VInt n => Some n
  | VFloat f => int_of_float f
  | VStr s => int_of_str s
  | VNone | VDate _ | VOid _ => None
  end.

(** [str(t)] for a datetime: ISO format with a space separator. *)
Definition datetime_str (t : datetime) : string :=
  fmt_d 4 (year t) ++ "-" ++ fmt_d 2 (month t) ++ "-" ++ fmt_d 2 (day t) ++ " " ++
  fmt_d 2 (hour t) ++ ":" ++ fmt_d 2 (minute t) ++ ":" ++ fmt_d 2 (second t) ++
  (if microsecond t =? 0 then "" else "." ++ fmt_d 6 (microsecond t)).

(** [t.strftime("%Y-%m")]: the C library's [strftime], which writes the year
    as it is (glibc does not pad a year below 1000) and the month on two
    digits. *)
Definition strftime_Y_m (t : datetime) : string :=
  pretty (year t) ++ "-" ++ fmt_d 2 (month t).

(** [str(v)].  The shortest round-trip numeral that [repr] prints for a
    float is supplied by [float_repr]. *)
Definition py_str (float_repr : float → string) (v : value) : string :=
  match v with
  | VNone => "None"
  | VInt n => pretty n
  | VFloat f => float_repr f
  | VStr s => s
  | VDate t => datetime_str t
  | VOid hex => hex
  end.

(** ** BSON and the MongoDB operations the handlers call *)

(** *** ObjectId *)

Definition hex_lower (c : ascii) : option ascii :=
  let n := N_of_ascii c in
  if is_digit c then Some c
  else if ((97 <=? n) && (n <=? 102))%N then Some c
  else if ((65 <=? n) && (n <=? 70))%N then Some (ascii_of_N (n + 32))
  else None.

(** White space that [bytes.fromhex] skips between bytes. *)
Definition is_hex_space (c : ascii) : bool :=
  let n := N_of_ascii c in (((9 <=? n) && (n <=? 13)) || (n =? 32))%N.

(** [bytes.fromhex], the bytes written back as lower-case hexadecimal. *)
Fixpoint fromhex (l : list ascii) : option (list ascii) :=
  match l with
  | [] => Some []
  | c :: l' =>
      if is_hex_space c then fromhex l'
      else match l' with
           | c2 :: l'' =>
               match hex_lower c, hex_lower c2, fromhex l'' with
               | Some a, Some b, Some r => Some (a :: b :: r)
               | _, _, _ => None
               end
           | [] => None
           end
  end.

(** [ObjectId(s)] for a string: [None] stands for [InvalidId]. *)
Definition ObjectId (s : string) : option string :=
  if (String.length s =? 24)%nat
  then string_of_list_ascii <$> fromhex (list_ascii_of_string s)
  else None.

Definition hex_char (n : N) : ascii :=
  if (n <? 10)%N then ascii_of_N (48 + n) else ascii_of_N (87 + n).

Fixpoint hex_go (k : nat) (n : N) (acc : string) : string :=
  match k with
  | O => acc
  | S k' => hex_go k' (n / 16)%N (String (hex_char (n mod 16)%N) acc)
  end.

(** The ObjectId that the driver generates for the [n]-th inserted document. *)
Definition generated_oid (n : N) : string := hex_go 24 n "".

(** *** Comparison order *)

(** Numbers of both numeric types on one scale; NaN sorts below all of them. *)
Inductive xnum := XNaN | XNegInf | XFin (q : Q) | XPosInf.

Definition xnum_of_float (f : float) : xnum :=
  match Prim2SF f with
  | S754_zero _ => XFin 0
  | S754_infinity s => if s then XNegInf else XPosInf
  | S754_nan => XNaN
  | S754_finite s m e =>
      let q := match e with
               | Z0 => inject_Z (Z.pos m)
               | Z.pos p => inject_Z (Z.pos m * 2 ^ Z.pos p)
               | Z.neg p => Qmake (Z.pos m) (2 ^ p)%positive
               end in
      XFin (if s then Qopp q else q)
  end.

Definition xnum_rank (x : xnum) : Z :=
  match x with XNaN => 0 | XNegInf => 1 | XFin _ => 2 | XPosInf => 3 end.

Definition xnum_leb (a b : xnum) : bool :=
  match a, b with
  | XFin p, XFin q => Qle_bool p q
  | _, _ => xnum_rank a <=? xnum_rank b
  end.

(** Lexicographic order on code sequences. *)
Fixpoint lex_leb (a b : list Z) : bool :=
  match a, b with
  | [], _ => true
  | _ :: _, [] => false
  | x :: a', y :: b' => (x <? y) || ((x =? y) && lex_leb a' b')
  end.

Definition codes (s : string) : list Z :=
  (λ c, Z.of_N (N_of_ascii c)) <$> list_ascii_of_string s.

Definition datetime_fields (t : datetime) : list Z :=
  [year t; month t; day t; hour t; minute t; second t; microsecond t].

(** The type brackets of the BSON comparison order. *)
Definition bson_rank (v : value) : Z :=
  match v with
  | VNone => 1
  | VInt _ | VFloat _ => 2
  | VStr _ => 3
  | VOid _ => 7
  | VDate _ => 9
  end.

Definition num_of (v : value) : xnum :=
  match v with
  | VInt n => XFin (inject_Z n)
  | VFloat f => xnum_of_float f
  | _ => XNaN
  end.

Definition bson_leb (a b : value) : bool :=
  if bson_rank a <? bson_rank b then true
  else if bson_rank b <? bson_rank a then false
  else match a, b with
       | VStr s, VStr t => lex_leb (codes s) (codes t)
       | VOid s, VOid t => lex_leb (codes s) (codes t)
       | VDate s, VDate t => lex_leb (datetime_fields s) (datetime_fields t)
       | VNone, VNone => true
       | _, _ => xnum_leb (num_of a) (num_of b)
       end.

Definition bson_eqb (a b : value) : bool := bson_leb a b && bson_leb b a.

(** *** Query filters and update documents *)

(** One field condition: [{k: v}] and [{k: {"$eq": v}}] are [Eq v],
    [{k: {"$gte": v}}] is [Gte v]. *)
Inductive cond := Eq (v : value) | Gte (v : value).

(** A filter document is the conjunction of its field conditions. *)
Definition filter := list (string * cond).

(** A missing field compares as null. *)
Definition cond_holds (c : cond) (field : option value) : bool :=
  let x := default VNone field in
  match c with
  | Eq v => bson_eqb x v
  | Gte v => (bson_rank x =? bson_rank v) && bson_leb v x
  end.

Definition matches (f : filter) (d : doc) : bool :=
  forallb (λ kc, cond_holds kc.2 (d !! kc.1)) f.

(** [{"$inc": {...}, "$set": {...}}] *)
Record update := Update {
  upd_inc : list (string * Z);
  upd_set : list (string * value) }.

(** Integers are stored as 64-bit signed values. *)
Definition int64_ok (n : Z) : bool :=
  (-9223372036854775808 <=? n) && (n <=? 9223372036854775807).

(** [$inc] of one field; [None] stands for the write error on a
    non-numeric field or on 64-bit overflow. *)
Definition apply_inc (d : doc) (ka : string * Z) : option doc :=
  if negb (int64_ok ka.2) then None else
  match d !! ka.1 with
  | None => Some (<[ka.1 := VInt ka.2]> d)
  | Some (VInt n) =>
      if int64_ok (n + ka.2) then Some (<[ka.1 := VInt (n + ka.2)]> d) else None
  | Some (VFloat f) =>
      Some (<[ka.1 := VFloat (PrimFloat.add f (float_of_Z ka.2))]> d)
  | Some _ => None
  end.

Fixpoint apply_incs (l : list (string * Z)) (d : doc) : option doc :=
  match l with
  | [] => Some d
  | ka :: l' => match apply_inc d ka with
                | Some d' => apply_incs l' d'
                | None => None
                end
  end.

(** A date as the store keeps it: BSON dates count milliseconds, and the
    driver drops what is below ([microsecond // 1000]). *)
Definition bson_datetime (t : datetime) : datetime :=
  {| year := year t; month := month t; day := day t; hour := hour t;
     minute := minute t; second := second t;
     microsecond := microsecond t / 1000 * 1000 |}.

(** A value as the store keeps it. *)
Definition to_bson (v : value) : value :=
  match v with
  | VDate t => VDate (bson_datetime t)
  | _ => v
  end.

Definition apply_sets (l : list (string * value)) (d : doc) : doc :=
  fold_left (λ acc kv, <[kv.1 := to_bson kv.2]> acc) l d.

Definition apply_update (u : update) (d : doc) : option doc :=
  apply_sets (upd_set u) <$> apply_incs (upd_inc u) d.

(** *** Collections *)

(** [find(f)]: the matching documents in natural order. *)
Definition find (f : filter) (c : list doc) : list doc :=
  List.filter (matches f) c.

(** Stable insertion sort. *)
Fixpoint insert_by (le : doc → doc → bool) (x : doc) (l : list doc) : list doc :=
  match l with
  | [] => [x]
  | y :: l' => if le x y then x :: l else y :: insert_by le x l'
  end.

Definition sort_by (le : doc → doc → bool) (l : list doc) : list doc :=
  foldr (insert_by le) [] l.

(** [cursor.sort(key, direction)]: direction [1] ascending, [-1] descending;
    a document without the key sorts as null. *)
Definition sort_docs (key : string) (direction : Z) (l : list doc) : list doc :=
  sort_by (λ a b,
             let ka := default VNone (a !! key) in
             let kb := default VNone (b !! key) in
             if 0 <=? direction then bson_leb ka kb else bson_leb kb ka) l.

(** [find_one(f)] *)
Definition find_one (f : filter) (c : list doc) : option doc :=
  head (find f c).

(** [find_one(f, sort=[(key, direction)])] *)
Definition find_one_sorted (f : filter) (key : string) (direction : Z)
    (c : list doc) : option doc :=
  head (sort_docs key direction (find f c)).

(** [find_one_and_update(f, u, return_document=ReturnDocument.AFTER)]: the
    first matching document is replaced by its update, which is returned;
    without a match the collection is left as it is.  One indivisible
    operation of the store.  The outer [None] stands for a write error. *)
Fixpoint find_one_and_update (f : filter) (u : update) (c : list doc)
    : option (list doc * option doc) :=
  match c with
  | [] => Some ([], None)
  | d :: c' =>
      if matches f d
      then match apply_update u d with
           | Some d' => Some (d' :: c', Some d')
           | None => None
           end
      else match find_one_and_update f u c' with
           | Some (c'', r) => Some (d :: c'', r)
           | None => None
           end
  end.

(** [estimated_document_count()] *)
Definition estimated_document_count (c : list doc) : Z := Z.of_nat (length c).

(** ** Schemas ([src/schemas.py]) *)

(** Keyword arguments are read field by field.  A field takes a value of
    its declared Python type ([float] fields also take an [int]); a missing
    required field, a value of another type or a violated constraint is a
    [ValidationError], here [None].  Keys that name no field are ignored.

    This is the validation on values of the declared types, which is what
    the program itself writes and reads back.  For the fields that are not
    text the library also converts some values of other types (a numeral
    in text or an integral float for an [int], ISO text or a number for a
    [datetime]); these conversions are not followed here, and a property
    that rests on a rejection is stated for documents that hold the
    declared types ([Event_typed]). *)

Definition field_str (kw : doc) (k : string) : option string :=
  match kw !! k with Some (VStr s) => Some s | _ => None end.

Definition field_int (kw : doc) (k : string) : option Z :=
  match kw !! k with Some (VInt n) => Some n | _ => None end.

Definition field_float (kw : doc) (k : string) : option float :=
  match kw !! k with
  | Some (VFloat f) => Some f
  | Some (VInt n) =>
      let f := float_of_Z n in if is_infinity f then None else Some f
  | _ => None
  end.

Definition field_datetime (kw : doc) (k : string) : option datetime :=
  match kw !! k with Some (VDate t) => Some t | _ => None end.

(** [Optional[str]] with default [None]. *)
Definition field_opt_str (kw : doc) (k : string) : option (option string) :=
  match kw !! k with
  | None | Some VNone => Some None
  | Some (VStr s) => Some (Some s)
  | Some _ => None
  end.

Definition dump_opt_str (o : option string) : value :=
  match o with Some s => VStr s | None => VNone end.

Module Event.
Record t := mk {
  title : string;
  description : string;
  genre : string;
  date : datetime;
  duration_minutes : Z;
  price_eur : float;
  seats_total : Z;
  seats_available : Z;
  image_url : option string }.

(** The constructor [Event] applied to the keyword arguments [kw]. *)
Definition of_kwargs (kw : doc) : option t :=
  title ← field_str kw "title";
  description ← field_str kw "description";
  genre ← field_str kw "genre";
  date ← field_datetime kw "date";
  duration_minutes ← field_int kw "duration_minutes";
  price_eur ← field_float kw "price_eur";
  seats_total ← field_int kw "seats_total";
  seats_available ← field_int kw "seats_available";
  image_url ← field_opt_str kw "image_url";
  if (10 <=? duration_minutes) && (duration_minutes <=? 300)   (* ge=10, le=300 *)
     && PrimFloat.leb 0 price_eur                                (* ge=0 *)
     && (1 <=? seats_total)                                      (* ge=1 *)
     && (0 <=? seats_available)                                  (* ge=0 *)
  then Some (mk title description genre date duration_minutes price_eur
                seats_total seats_available image_url)
  else None.

(** [e.model_dump()]; also the fields of the JSON object of a response. *)
Definition model_dump (e : t) : doc :=
  <["title" := VStr (title e)]> (
  <["description" := VStr (description e)]> (
  <["genre" := VStr (genre e)]> (
  <["date" := VDate (date e)]> (
  <["duration_minutes" := VInt (duration_minutes e)]> (
  <["price_eur" := VFloat (price_eur e)]> (
  <["seats_total" := VInt (seats_total e)]> (
  <["seats_available" := VInt (seats_available e)]> (
  <["image_url" := dump_opt_str (image_url e)]> ∅)))))))).
End Event.

Module Reservation.
Record t := mk {
  event_id : string;
  name : string;
  email : string;
  tickets : Z;
  note : option string }.

(** The constructor [Reservation]; [validate_email] is the check behind [EmailStr],
    which gives the normalised address. *)
Definition of_kwargs (validate_email : string → option string) (kw : doc)
    : option t :=
  event_id ← field_str kw "event_id";
  name ← field_str kw "name";
  email ← field_str kw "email" ≫= validate_email;
  tickets ← field_int kw "tickets";
  note ← field_opt_str kw "note";
  if (1 <=? tickets) && (tickets <=? 10)                        (* ge=1, le=10 *)
  then Some (mk event_id name email tickets note)
  else None.

Definition model_dump (r : t) : doc :=
  <["event_id" := VStr (event_id r)]> (
  <["name" := VStr (name r)]> (
  <["email" := VStr (email r)]> (
  <["tickets" := VInt (tickets r)]> (
  <["note" := dump_opt_str (note r)]> ∅)))).
End Reservation.

Module Ownerprofile.
Record t := mk {
  name : string;
  role : string;
  bio : string;
  image_url : option string;
  instagram : option string;
  website : option string }.

Definition of_kwargs (kw : doc) : option t :=
  name ← field_str kw "name";
  role ← field_str kw "role";
  bio ← field_str kw "bio";
  image_url ← field_opt_str kw "image_url";
  instagram ← field_opt_str kw "instagram";
  website ← field_opt_str kw "website";
  Some (mk name role bio image_url instagram website).

Definition model_dump (o : t) : doc :=
  <["name" := VStr (name o)]> (
  <["role" := VStr (role o)]> (
  <["bio" := VStr (bio o)]> (
  <["image_url" := dump_opt_str (image_url o)]> (
  <["instagram" := dump_opt_str (instagram o)]> (
  <["website" := dump_opt_str (website o)]> ∅))))).
End Ownerprofile.

Module Theater.
Record t := mk {
  name : string;
  tagline : string;
  story : string;
  address : string;
  phone : string;
  email : string;
  opening_hours : option string;
  transport_howto : option string }.

Definition of_kwargs (validate_email : string → option string) (kw : doc)
    : option t :=
  name ← field_str kw "name";
  tagline ← field_str kw "tagline";
  story ← field_str kw "story";
  address ← field_str kw "address";
  phone ← field_str kw "phone";
  email ← field_str kw "email" ≫= validate_email;
  opening_hours ← field_opt_str kw "opening_hours";
  transport_howto ← field_opt_str kw "transport_howto";
  Some (mk name tagline story address phone email opening_hours transport_howto).

Definition model_dump (x : t) : doc :=
  <["name" := VStr (name x)]> (
  <["tagline" := VStr (tagline x)]> (
  <["story" := VStr (story x)]> (
  <["address" := VStr (address x)]> (
  <["phone" := VStr (phone x)]> (
  <["email" := VStr (email x)]> (
  <["opening_hours" := dump_opt_str (opening_hours x)]> (
  <["transport_howto" := dump_opt_str (transport_howto x)]> ∅))))))).
End Theater.

Module Video.
Record t := mk {
  month_key : string;
  video_url : string;
  caption : option string }.

(** The constructor [Video]: [month_key] is a required [str]; its [Field] carries a
    description and no constraint. *)
Definition of_kwargs (kw : doc) : option t :=
  month_key ← field_str kw "month_key";
  video_url ← field_str kw "video_url";
  caption ← field_opt_str kw "caption";
  Some (mk month_key video_url caption).

Definition model_dump (v : t) : doc :=
  <["month_key" := VStr (month_key v)]> (
  <["video_url" := VStr (video_url v)]> (
  <["caption" := dump_opt_str (caption v)]> ∅)).
End Video.

(** The form that the description of [Video.month_key] names: four digits,
    a hyphen, two digits. *)
Definition is_month_key (s : string) : bool :=
  match list_ascii_of_string s with
  | [y1; y2; y3; y4; h; m1; m2] =>
      is_digit y1 && is_digit y2 && is_digit y3 && is_digit y4
      && Ascii.eqb h "-"%char && is_digit m1 && is_digit m2
  | _ => false
  end.

(** ** The running service *)

(** The state that the handlers act on: the database (collection name to
    documents), the system clock as the sequence of its successive readings,
    the number of readings taken, and the number of identifiers generated. *)
Record world := World {
  db : gmap string (list doc);
  clock : nat → datetime;
  ticks : nat;
  next_oid : N }.

Inductive exn :=
| HTTPException (status_code : Z) (detail : string)
| ValidationError
| KeyError (key : string)
| PyError            (* TypeError, ValueError or OverflowError of a conversion *)
| OperationFailure.  (* a write that the store refuses *)

Inductive outcome (A : Type) :=
| Return (a : A)
| Raise (e : exn).
Arguments Return {A} a.
Arguments Raise {A} e.

(** A computation returns or raises, and leaves a world behind either way. *)
Definition M (A : Type) : Type := world → outcome A * world.

Definition ret {A} (a : A) : M A := λ w, (Return a, w).

Definition bind {A B} (m : M A) (k : A → M B) : M B := λ w,
  match m w with
  | (Return a, w') => k a w'
  | (Raise e, w') => (Raise e, w')
  end.

Definition raise {A} (e : exn) : M A := λ w, (Raise e, w).

Global Instance M_ret : MRet M := @ret.
Global Instance M_bind : MBind M := λ A B k m, bind m k.

(** A constructor call: the instance, or [ValidationError]. *)
Definition construct {A} (o : option A) : M A :=
  match o with Some a => ret a | None => raise ValidationError end.

(** [db[name]]: a collection that was never written to is empty. *)
Definition collection (name : string) (w : world) : list doc :=
  default [] (db w !! name).

(** A read-only query on a collection. *)
Definition query {A} (name : string) (q : list doc → A) : M A := λ w,
  (Return (q (collection name w)), w).

(** [datetime.utcnow()] *)
Definition utcnow : M datetime := λ w,
  (Return (clock w (ticks w)),
   {| db := db w; clock := clock w; ticks := S (ticks w); next_oid := next_oid w |}).

(** [db[name].find_one_and_update(f, u, return_document=AFTER)] *)
Definition db_find_one_and_update (name : string) (f : filter) (u : update)
    : M (option doc) := λ w,
  match find_one_and_update f u (collection name w) with
  | Some (c', Some d') =>
      (Return (Some d'),
       {| db := <[name := c']> (db w); clock := clock w; ticks := ticks w;
          next_oid := next_oid w |})
  | Some (_, None) => (Return None, w)
  | None => (Raise OperationFailure, w)
  end.

(** [db[name].insert_one(d).inserted_id] as text, for a document [d] without
    [_id]: the driver generates the ObjectId. *)
Definition insert_one (name : string) (d : doc) : M string := λ w,
  let oid := generated_oid (next_oid w) in
  (Return oid,
   {| db := <[name := (collection name w ++
                       [<["_id" := VOid oid]> (to_bson <$> d)])%list]> (db w);
      clock := clock w; ticks := ticks w; next_oid := N.succ (next_oid w) |}).

(** Modelled from the spec: the Document Store Adapter's [create_document]
    of [database.py], which is not among the source files.  The spec gives
    [create(collectionName, record) → generated id] and speaks of the
    creation timestamp of a document: the record is stored in the named
    collection with its creation time and a generated identifier, which is
    returned as text.  A model instance is passed as its [model_dump()].
    The store is taken to answer: a write that fails because the store is
    out of reach, which leaves [create_reservation] with the seats taken
    and no record, is outside this model. *)
Definition create_document (collection_name : string) (data : doc) : M string :=
  now ← utcnow;
  insert_one collection_name (<["created_at" := VDate now]> data).

(** *** Utilities ([src/main.py]) *)

Inductive model_cls :=
| Event | Reservation | Ownerprofile | Theater | Contactmessage | Video.

(** [model_cls.__name__] *)
Definition class_name (c : model_cls) : string :=
  match c with
  | Event => "Event"
  | Reservation => "Reservation"
  | Ownerprofile => "Ownerprofile"
  | Theater => "Theater"
  | Contactmessage => "Contactmessage"
  | Video => "Video"
  end.

Definition lower_char (c : ascii) : ascii :=
  let n := N_of_ascii c in
  if ((65 <=? n) && (n <=? 90))%N then ascii_of_N (n + 32) else c.

(** [s.lower()] on ASCII text. *)
Fixpoint lower (s : string) : string :=
  match s with
  | EmptyString => EmptyString
  | String c s' => String (lower_char c) (lower s')
  end.

Definition collection_name (c : model_cls) : string := lower (class_name c).

(** *** Reservations *)

Record ReservationResponse := {
  reservation_id : string;
  message : string }.

(** [event["_id"]] *)
Definition getitem (d : doc) (k : string) : M value :=
  match d !! k with Some v => ret v | None => raise (KeyError k) end.

(** [POST /api/reservations].  [res] is an instance of [Reservation]. *)
Definition create_reservation (res : Reservation.t) : M ReservationResponse :=
  (* Check event exists and seats available, then atomically decrement *)
  ev ← query (collection_name Event)
        (find_one [("_id", Eq (VStr (Reservation.event_id res)))]);
  (* Try both string and ObjectId *)
  event ← match ObjectId (Reservation.event_id res) with
           | Some oid =>
               query (collection_name Event) (find_one [("_id", Eq (VOid oid))])
           | None =>
               query (collection_name Event)
                 (find_one [("_id", Eq (VStr (Reservation.event_id res)))])
           end;
  if negb (truthy event)
  then raise (HTTPException 404 "Event not found")
  else
    let event := default ∅ event in
    seats ← match py_int (dict_get event "seats_available" (VInt 0)) with
             | Some n => ret n
             | None => raise PyError
             end;
    if seats <? Reservation.tickets res
    then raise (HTTPException 400 "Not enough seats available")
    else
      (* Decrement seats in a single operation with condition *)
      id ← getitem event "_id";
      now ← utcnow;
      updated ← db_find_one_and_update (collection_name Event)
                  [("_id", Eq id);
                   ("seats_available", Gte (VInt (Reservation.tickets res)))]
                  (Update [("seats_available", - Reservation.tickets res)]
                          [("updated_at", VDate now)]);
      if negb (truthy updated)
      then raise (HTTPException 409 "Seats no longer available")
      else
        reservation_id ← create_document (collection_name Reservation)
                           (Reservation.model_dump res);
        mret {| reservation_id := reservation_id;
                message := "Reservation confirmed" |}.

(** *** The reservation handler, one store operation at a time

    Requests are served independently; what they share is the store, and
    each call on it is one indivisible operation.  A request in progress is
    at one of the calls of [create_reservation]; [step] performs that call
    together with the local computation that leads to the next one. *)
Inductive pc :=
| AtProbe                      (* before the [find_one] of line 79 *)
| AtLookup                     (* before the [find_one] of lines 84-87 *)
| AtUpdate (event : doc)       (* before [find_one_and_update], line 97 *)
| AtRecord                     (* before [create_document], line 105 *)
| Done (r : outcome ReservationResponse).

Definition advance {A} (m : M A) (next : A → pc) : world → pc * world := λ w,
  match m w with
  | (Return a, w') => (next a, w')
  | (Raise e, w') => (Done (Raise e), w')
  end.

Definition step (res : Reservation.t) (p : pc) : world → pc * world :=
  match p with
  | AtProbe =>
      advance
        (query (collection_name Event)
           (find_one [("_id", Eq (VStr (Reservation.event_id res)))]))
        (λ _, AtLookup)
  | AtLookup =>
      advance
        (event ← match ObjectId (Reservation.event_id res) with
                  | Some oid =>
                      query (collection_name Event)
                        (find_one [("_id", Eq (VOid oid))])
                  | None =>
                      query (collection_name Event)
                        (find_one [("_id", Eq (VStr (Reservation.event_id res)))])
                  end;
         if negb (truthy event)
         then raise (HTTPException 404 "Event not found")
         else
           let event := default ∅ event in
           seats ← match py_int (dict_get event "seats_available" (VInt 0)) with
                    | Some n => ret n
                    | None => raise PyError
                    end;
           if seats <? Reservation.tickets res
           then raise (HTTPException 400 "Not enough seats available")
           else mret event)
        AtUpdate
  | AtUpdate event =>
      advance
        (id ← getitem event "_id";
         now ← utcnow;
         updated ← db_find_one_and_update (collection_name Event)
                     [("_id", Eq id);
                      ("seats_available", Gte (VInt (Reservation.tickets res)))]
                     (Update [("seats_available", - Reservation.tickets res)]
                             [("updated_at", VDate now)]);
         if negb (truthy updated)
         then raise (HTTPException 409 "Seats no longer available")
         else mret updated)
        (λ _, AtRecord)
  | AtRecord =>
      advance
        (reservation_id ← create_document (collection_name Reservation)
                            (Reservation.model_dump res);
         mret {| reservation_id := reservation_id;
                 message := "Reservation confirmed" |})
        (λ r, Done (Return r))
  | Done r => λ w, (Done r, w)
  end.

(** A request served with no other request in between. *)
Fixpoint run (res : Reservation.t) (fuel : nat) (p : pc) (w : world) : pc * world :=
  match fuel with
  | O => (p, w)
  | S fuel' => let '(p', w') := step res p w in run res fuel' p' w'
  end.

(** Two requests in flight on one store. *)
Record config := Config {
  shared : world;
  pc1 : pc;
  pc2 : pc }.

(** The scheduler picks which request performs its next store operation:
    [true] the first, [false] the second. *)
Definition sched_step (res1 res2 : Reservation.t) (c : config) (pick : bool) : config :=
  if pick
  then let '(p, w) := step res1 (pc1 c) (shared c) in
       {| shared := w; pc1 := p; pc2 := pc2 c |}
  else let '(p, w) := step res2 (pc2 c) (shared c) in
       {| shared := w; pc1 := pc1 c; pc2 := p |}.

Definition run_schedule (res1 res2 : Reservation.t) (s : list bool) (c : config)
    : config :=
  fold_left (sched_step res1 res2) s c.

(** *** Events, videos and the seed endpoint *)

Section Handlers.

(** What [repr] prints for a float, and the validation behind [EmailStr]
    (the [email-validator] package). *)
Variable float_repr : float → string.
Variable validate_email : string → option string.

(** [GET /api/events] *)
Definition list_events : M (list Event.t) :=
  docs ← query (collection_name Event) (λ c, sort_docs "date" 1 (find [] c));
  mapM (λ d,
          construct
            (Event.of_kwargs
               (<["id" := VStr (py_str float_repr (dict_get d "_id" VNone))]> d)))
       docs.

(** [GET /api/video/current] *)
Definition current_video : M (option Video.t) :=
  now ← utcnow;
  let key := strftime_Y_m now in
  doc ← query (collection_name Video) (find_one [("month_key", Eq (VStr key))]);
  doc ← (if negb (truthy doc)
         then (* Fallback: the most recent video *)
              query (collection_name Video) (find_one_sorted [] "created_at" (-1))
         else mret doc);
  if negb (truthy doc)
  then mret None
  else v ← construct (Video.of_kwargs (delete "_id" (default ∅ doc)));
       mret (Some v).

(** [GET /api/video/{month_key}] *)
Definition video_by_month (month_key : string) : M (option Video.t) :=
  doc ← query (collection_name Video)
         (find_one [("month_key", Eq (VStr month_key))]);
  if negb (truthy doc)
  then mret None
  else v ← construct (Video.of_kwargs (delete "_id" (default ∅ doc)));
       mret (Some v).

Record SeedResponse := {
  status : string;
  seed_message : string }.

Definition theater_kwargs : doc :=
  list_to_map
    [("name", VStr "Kabarett Salon am Kanal");
     ("tagline", VStr "Quirky. Wien. Mit Schmäh.");
     ("story",
      VStr ("Geboren aus dem Geist der Kaffeehauskultur, lebt unser kleines Kabarett die große Liebe "
            ++ "zum spontanen Wort. Zwischen Samtvorhängen und Messinglampen trifft moderner Humor auf "
            ++ "den Charme vergangener Nächte."));
     ("address", VStr "Schwarzer-Bären-Gasse 12, 1050 Wien");
     ("phone", VStr "+43 1 234 56 78");
     ("email", VStr "kontakt@kabarett-salon.at");
     ("opening_hours", VStr "Di–So ab 18:00");
     ("transport_howto", VStr "U4 bis Kettenbrückengasse, dann 5 Minuten zu Fuß")].

Definition owners_kwargs : list doc :=
  [list_to_map
     [("name", VStr "Lena Weiss");
      ("role", VStr "Leitung & Bühne");
      ("bio", VStr "Kabarettistin, Dramaturgin und Barflüsterin. Liebt Altbaufliesen und schnelle Pointen.");
      ("image_url", VStr "https://images.unsplash.com/photo-1544005313-94ddf0286df2?w=600&h=600&fit=crop");
      ("instagram", VStr "https://instagram.com/lenakabarett");
      ("website", VNone)];
   list_to_map
     [("name", VStr "Milo Berger");
      ("role", VStr "Impro & Programm");
      ("bio", VStr "Impro-Spieler und Organisator. Findet Geschichten in jeder U-Bahnfahrt.");
      ("image_url", VStr "https://images.unsplash.com/photo-1500648767791-00dcc994a43e?w=600&h=600&fit=crop");
      ("instagram", VNone);
      ("website", VStr "https://miloberger.example.com")]].

(** [base_date.replace(hour=h, minute=m, second=0, microsecond=0)], with
    [day=d] when given. *)
Definition replace (t : datetime) (d : option Z) (h m : Z) : datetime :=
  {| year := year t; month := month t; day := default (day t) d;
     hour := h; minute := m; second := 0; microsecond := 0 |}.

Definition demo_events_kwargs (base_date : datetime) : list doc :=
  [list_to_map
     [("title", VStr "Wiener Schmäh & Schnapsidee");
      ("description", VStr "Kabarett-Abend mit Biss und Bussi.");
      ("genre", VStr "Kabarett");
      ("date", VDate (replace base_date None 19 30));
      ("duration_minutes", VInt 90);
      ("price_eur", VFloat 18.0);
      ("seats_total", VInt 60);
      ("seats_available", VInt 60);
      ("image_url", VStr "https://images.unsplash.com/photo-1511671782779-c97d3d27a1d4?w=1200&auto=format&fit=crop&q=60")];
   list_to_map
     [("title", VStr "Impro am Kanal: Alles kann passieren");
      ("description", VStr "Improvisationstheater – du gibst vor, wir legen los!");
      ("genre", VStr "Impro");
      ("date", VDate (replace base_date None 20 0));
      ("duration_minutes", VInt 75);
      ("price_eur", VFloat 15.0);
      ("seats_total", VInt 60);
      ("seats_available", VInt 60);
      ("image_url", VStr "https://images.unsplash.com/photo-1515165562835-c3b8c1ea0f59?w=1200&auto=format&fit=crop&q=60")];
   list_to_map
     [("title", VStr "Werkstatt Humor: Basics für Einsteiger:innen");
      ("description", VStr "Workshop für spontane Bühnenmenschen.");
      ("genre", VStr "Workshop");
      ("date", VDate (replace base_date (Some (Z.min (day base_date + 3) 28)) 18 0));
      ("duration_minutes", VInt 120);
      ("price_eur", VFloat 40.0);
      ("seats_total", VInt 20);
      ("seats_available", VInt 20);
      ("image_url", VStr "https://images.unsplash.com/photo-1496307042754-b4aa456c4a2d?w=1200&auto=format&fit=crop&q=60")]].

(** [POST /api/seed]: populate the database with sample data for preview. *)
Definition seed : M SeedResponse :=
  (* Only seed if empty *)
  n ← query (collection_name Event) estimated_document_count;
  if 0 <? n
  then mret {| status := "ok"; seed_message := "Already seeded" |}
  else
    (* Theater *)
    theater ← construct (Theater.of_kwargs validate_email theater_kwargs);
    _ ← create_document (collection_name Theater) (Theater.model_dump theater);
    (* Owners *)
    owners ← mapM (λ kw, construct (Ownerprofile.of_kwargs kw)) owners_kwargs;
    _ ← mapM (λ o, create_document (collection_name Ownerprofile)
                     (Ownerprofile.model_dump o)) owners;
    (* Events (next days) *)
    base_date ← utcnow;
    demo_events ← mapM (λ kw, construct (Event.of_kwargs kw))
                    (demo_events_kwargs base_date);
    _ ← mapM (λ e, create_document (collection_name Event) (Event.model_dump e))
          demo_events;
    (* Video for current month *)
    now ← utcnow;
    video ← construct
              (Video.of_kwargs
                 (list_to_map
                    [("month_key", VStr (strftime_Y_m now));
                     ("video_url", VStr "https://cdn.coverr.co/videos/coverr-theatre-actors-having-fun-0044/1080p.mp4");
                     ("caption", VStr "Aus dem aktuellen Programm")]));
    _ ← create_document (collection_name Video) (Video.model_dump video);
    mret {| status := "ok"; seed_message := "Seeded demo data" |}.

End Handlers.

(** ** Vocabulary of the properties *)

(** The [_id] that the lookup of [create_reservation] asks for: the
    ObjectId that the request's [event_id] denotes, or else the text itself. *)
Definition requested_id (res : Reservation.t) : value :=
  match ObjectId (Reservation.event_id res) with
  | Some oid => VOid oid
  | None => VStr (Reservation.event_id res)
  end.

(** The Event document that a request is for. *)
Definition event_of_request (res : Reservation.t) (w : world) : option doc :=
  find_one [("_id", Eq (requested_id res))] (collection (collection_name Event) w).

(** A document whose [_id] is the given [event_id], as text or as ObjectId. *)
Definition has_event_id (event_id : string) (d : doc) : Prop :=
  d !! "_id" = Some (VStr event_id) ∨
  ∃ oid, ObjectId event_id = Some oid ∧ d !! "_id" = Some (VOid oid).

(** The filter and the update of the conditional decrement (lines 97-101). *)
Definition decrement_filter (id : value) (tickets : Z) : filter :=
  [("_id", Eq id); ("seats_available", Gte (VInt tickets))].

Definition decrement_update (tickets : Z) (now : datetime) : update :=
  Update [("seats_available", - tickets)] [("updated_at", VDate now)].

(** [0 ≤ seats_available ≤ seats_total] on one Event document. *)
Definition seats_inv (d : doc) : Prop :=
  ∃ a t, d !! "seats_available" = Some (VInt a) ∧
         d !! "seats_total" = Some (VInt t) ∧ 0 ≤ a ≤ t.

Definition events_inv (w : world) : Prop :=
  Forall seats_inv (collection (collection_name Event) w).

(** What one reservation attempt may do to an Event document: nothing, or
    take [tickets] seats from at least as many available ones. *)
Definition decremented (tickets : Z) (d d' : doc) : Prop :=
  d' = d ∨
  ∃ a, d !! "seats_available" = Some (VInt a) ∧ tickets ≤ a ∧
       d' !! "seats_available" = Some (VInt (a - tickets)) ∧
       d' !! "seats_total" = d !! "seats_total" ∧
       d' !! "_id" = d !! "_id".

(** The three refusals of [create_reservation]. *)
Definition NotFound : exn := HTTPException 404 "Event not found".
Definition InsufficientCapacity : exn := HTTPException 400 "Not enough seats available".
Definition Conflict : exn := HTTPException 409 "Seats no longer available".

Definition confirmed (reservation_id : string) : ReservationResponse :=
  {| reservation_id := reservation_id; message := "Reservation confirmed" |}.

(** The world after one reading of the clock. *)
Definition tick (w : world) : world :=
  {| db := db w; clock := clock w; ticks := S (ticks w); next_oid := next_oid w |}.

(** How far a request has come. *)
Definition progress (p : pc) : nat :=
  match p with
  | AtProbe => 0
  | AtLookup => 1
  | AtUpdate _ => 2
  | AtRecord => 3
  | Done _ => 4
  end.

Definition succeeded (p : pc) : Prop := ∃ r, p = Done (Return r).

Definition refused (p : pc) : Prop :=
  p = Done (Raise InsufficientCapacity) ∨ p = Done (Raise Conflict).

(** The answer of the video endpoints for a document found. *)
Definition video_response (d : doc) : outcome (option Video.t) :=
  match Video.of_kwargs (delete "_id" d) with
  | Some v => Return (Some v)
  | None => Raise ValidationError
  end.


(** The field names of the [Event] model. *)
Definition Event_fields : gset string :=
  {[ "title"; "description"; "genre"; "date"; "duration_minutes"; "price_eur";
     "seats_total"; "seats_available"; "image_url" ]}.

(** Two documents that differ at most in their [_id]. *)
Definition same_but_id (d1 d2 : doc) : Prop := delete "_id" d1 = delete "_id" d2.

Definition already_seeded : SeedResponse :=
  {| status := "ok"; seed_message := "Already seeded" |}.

Definition seeded : SeedResponse :=
  {| status := "ok"; seed_message := "Seeded demo data" |}.

(** *** Sample data *)

Definition sample_time : datetime := Datetime 2026 11 4 7 5 0 0.

Definition sample_clock (n : nat) : datetime :=
  Datetime 2026 11 4 7 5 (Z.of_nat n) 0.

(** An Event document as the store holds it. *)
Definition sample_event (id : value) (total available : Z) : doc :=
  list_to_map
    [("_id", id);
     ("title", VStr "Impro am Kanal");
     ("description", VStr "Improvisationstheater");
     ("genre", VStr "Impro");
     ("date", VDate (Datetime 2026 11 5 20 0 0 0));
     ("duration_minutes", VInt 75);
     ("price_eur", VFloat 15.0);
     ("seats_total", VInt total);
     ("seats_available", VInt available);
     ("image_url", VNone);
     ("created_at", VDate sample_time)].

Definition sample_oid : string := "65f1c0de65f1c0de65f1c0de".

Definition sample_world (available : Z) : world :=
  {| db := {[ "event" := [sample_event (VOid sample_oid) 60 available] ]};
     clock := sample_clock; ticks := 0; next_oid := 0 |}.

Definition sample_request (tickets : Z) : Reservation.t :=
  Reservation.mk sample_oid "Lena Weiss" "lena@example.com" tickets None.

(** A Video document of an earlier month. *)
Definition sample_video : doc :=
  list_to_map
    [("_id", VOid "65f1c0de65f1c0de65f1c0df");
     ("month_key", VStr "2026-10");
     ("video_url", VStr "https://example.com/october.mp4");
     ("caption", VNone);
     ("created_at", VDate (Datetime 2026 10 1 9 0 0 0))].

Definition empty_world : world :=
  {| db := ∅; clock := sample_clock; ticks := 0; next_oid := 0 |}.

(** The identifiers that the lookups of this program ask for. *)
Definition is_id_value (v : value) : Prop :=
  match v with VOid _ | VStr _ => True | _ => False end.

(** The world with one collection replaced. *)
Definition with_collection (name : string) (c : list doc) (w : world) : world :=
  {| db := <[name := c]> (db w); clock := clock w; ticks := ticks w;
     next_oid := next_oid w |}.

(** The world after [create_document]. *)
Definition after_create (name : string) (data : doc) (w : world) : world :=
  {| db := <[name := (collection name w ++
                      [<["_id" := VOid (generated_oid (next_oid w))]>
                         (<["created_at" := VDate (bson_datetime (clock w (ticks w)))]>
                            (to_bson <$> data))])%list]>
           (db w);
     clock := clock w; ticks := S (ticks w); next_oid := N.succ (next_oid w) |}.

(** The one Event document with the given [_id] has [n] seats left. *)
Definition only_event (id : value) (n : Z) (w : world) : Prop :=
  ∃ pre e post,
    collection (collection_name Event) w = (pre ++ e :: post)%list ∧
    Forall (λ d, d !! "_id" ≠ Some id) pre ∧
    Forall (λ d, d !! "_id" ≠ Some id) post ∧
    e !! "_id" = Some id ∧
    e !! "seats_available" = Some (VInt n).

(** A request that has not reached its conditional update yet. *)
Definition pending (id : value) (p : pc) : Prop :=
  p = AtProbe ∨ p = AtLookup ∨ ∃ e, p = AtUpdate e ∧ e !! "_id" = Some id.

(** A request whose conditional update was applied. *)
Definition winning (p : pc) : Prop := p = AtRecord ∨ succeeded p.

(** What holds of two requests for 3 of 5 seats at every moment. *)
Definition race_inv (id : value) (c : config) : Prop :=
  (only_event id 5 (shared c) ∧ pending id (pc1 c) ∧ pending id (pc2 c)) ∨
  (only_event id 2 (shared c) ∧
   ((winning (pc1 c) ∧ (pending id (pc2 c) ∨ refused (pc2 c))) ∨
    ((pending id (pc1 c) ∨ refused (pc1 c)) ∧ winning (pc2 c)))).

Definition picks (b : bool) (s : list bool) : nat :=
  length (List.filter (Bool.eqb b) s).

(** The call that a request of the pair is at. *)
Definition pc_of (b : bool) (c : config) : pc := if b then pc1 c else pc2 c.

(** A request after [n] of its operations, none of them the update. *)
Definition before_update (id : value) (n : nat) (p : pc) : Prop :=
  match n with
  | 0%nat => p = AtProbe
  | 1%nat => p = AtLookup
  | 2%nat => ∃ e, p = AtUpdate e ∧ e !! "_id" = Some id
  | _ => False
  end.

(** The request whose update was applied, after [n] of its operations. *)
Definition winner_at (n : nat) (p : pc) : Prop :=
  (n = 3%nat ∧ p = AtRecord) ∨ ((4 ≤ n)%nat ∧ succeeded p).

(** The other request after [n] of its operations, [read_before] telling
    whether it had read the event before that update was applied. *)
Definition loser_at (id : value) (read_before : bool) (n : nat) (p : pc) : Prop :=
  if read_before
  then (n = 2%nat ∧ ∃ e, p = AtUpdate e ∧ e !! "_id" = Some id) ∨
       ((3 ≤ n)%nat ∧ p = Done (Raise Conflict))
  else (n = 0%nat ∧ p = AtProbe) ∨ (n = 1%nat ∧ p = AtLookup) ∨
       ((2 ≤ n)%nat ∧ p = Done (Raise InsufficientCapacity)).



(** A numeral of exactly [n] decimal digits. *)
Definition digits_only (n : nat) (s : string) : bool :=
  (String.length s =? n)%nat && forallb is_digit (list_ascii_of_string s).

(** A store with one Video document, of an earlier month. *)
Definition video_world : world :=
  {| db := {[ "video" := [sample_video] ]};
     clock := sample_clock; ticks := 0; next_oid := 0 |}.

(** An email validation that accepts every address as it is, and a float
    printer, for the sample runs. *)
Definition accept_email (s : string) : option string := Some s.

Definition no_repr (f : float) : string := "".

(** ** The remaining endpoints and their vocabulary *)

(** [GET /api/theater]: theater info (latest document). *)
Definition theater_info (validate_email : string → option string)
    : M (option Theater.t) :=
  doc ← query (collection_name Theater) (find_one_sorted [] "created_at" (-1));
  if negb (truthy doc)
  then mret None
  else t ← construct (Theater.of_kwargs validate_email
                        (delete "_id" (default ∅ doc)));
       mret (Some t).

(** The answer of [theater_info] for a document found. *)
Definition theater_response (validate_email : string → option string) (d : doc)
    : outcome (option Theater.t) :=
  match Theater.of_kwargs validate_email (delete "_id" d) with
  | Some t => Return (Some t)
  | None => Raise ValidationError
  end.

(** Any number of requests in flight on one store, each with the call it
    is at. *)
Abbreviation pool := (list (Reservation.t * pc)).

(** The scheduler picks the request that performs its next store
    operation; a number that names no request picks none. *)
Definition pool_step (wp : world * pool) (i : nat) : world * pool :=
  match wp.2 !! i with
  | Some (res, p) =>
      let '(p', w') := step res p wp.1 in (w', <[i := (res, p')]> wp.2)
  | None => wp
  end.

Definition run_pool (s : list nat) (wp : world * pool) : world * pool :=
  fold_left pool_step s wp.

(** Requests served one after the other. *)
Definition serve_all (rs : list Reservation.t) (w : world) : world :=
  fold_left (λ w res, (create_reservation res w).2) rs w.

(** Equality of two identifiers of the kinds that requests ask for. *)
Definition same_id (a b : value) : bool :=
  match a, b with
  | VOid x, VOid y => String.eqb x y
  | VStr x, VStr y => String.eqb x y
  | _, _ => false
  end.

(** A request whose conditional update was applied. *)
Definition won (p : pc) : bool :=
  match p with
  | AtRecord | Done (Return _) => true
  | _ => false
  end.

(** The tickets that one request has taken from the event with the given
    [_id]. *)
Definition share (id : value) (res : Reservation.t) (p : pc) : Z :=
  if same_id (requested_id res) id && won p then Reservation.tickets res else 0.

(** The tickets taken so far from the event with the given [_id]. *)
Definition sold (id : value) (ps : pool) : Z :=
  foldr (λ rp acc, share id rp.1 rp.2 + acc) 0 ps.

(** A request that is at its conditional update holds the event that its
    lookup found. *)
Definition holds_event (res : Reservation.t) (p : pc) : Prop :=
  ∀ e, p = AtUpdate e → e !! "_id" = Some (requested_id res).

(** Every request of the pool is at its first call. *)
Definition arriving (rs : list Reservation.t) : pool :=
  (λ res, (res, AtProbe)) <$> rs.

(** The greatest integer that a document can hold. *)
Definition int64_max : Z := 9223372036854775807.

(** Chronological order of datetimes. *)
Definition datetime_leb (a b : datetime) : bool :=
  lex_leb (datetime_fields a) (datetime_fields b).

(** The constraints that [Event] declares on its fields. *)
Definition Event_constraints (e : Event.t) : Prop :=
  10 ≤ Event.duration_minutes e ≤ 300 ∧
  PrimFloat.leb 0 (Event.price_eur e) = true ∧
  1 ≤ Event.seats_total e ∧
  0 ≤ Event.seats_available e.

(** A document as [create_document] stores it. *)
Definition stored (id : string) (created : datetime) (data : doc) : doc :=
  <["_id" := VOid id]>
    (<["created_at" := VDate (bson_datetime created)]> (to_bson <$> data)).

(** A field that, where the document has it, holds a value of the kind
    given. *)
Definition declared (d : doc) (k : string) (kind : value → bool) : bool :=
  match d !! k with Some v => kind v | None => true end.

Definition is_int (v : value) : bool :=
  match v with VInt _ => true | _ => false end.

Definition is_number (v : value) : bool :=
  match v with VInt _ | VFloat _ => true | _ => false end.

Definition is_date (v : value) : bool :=
  match v with VDate _ => true | _ => false end.

(** An Event document whose date and numbers are stored with the types
    that the model declares, as this program writes them.  (Text fields
    take text only; for the other fields the validation also converts
    values of other types, numerals in text for one, which [Event.of_kwargs]
    does not follow.) *)
Definition Event_typed (d : doc) : bool :=
  declared d "date" is_date && declared d "duration_minutes" is_int &&
  declared d "price_eur" is_number && declared d "seats_total" is_int &&
  declared d "seats_available" is_int.

(** An event as it is read back from the store: its date to the
    millisecond. *)
Definition Event_as_stored (e : Event.t) : Event.t :=
  Event.mk (Event.title e) (Event.description e) (Event.genre e)
    (bson_datetime (Event.date e)) (Event.duration_minutes e) (Event.price_eur e)
    (Event.seats_total e) (Event.seats_available e) (Event.image_url e).

(** A theater with another address. *)
Definition with_email (x : Theater.t) (email : string) : Theater.t :=
  Theater.mk (Theater.name x) (Theater.tagline x) (Theater.story x)
    (Theater.address x) (Theater.phone x) email
    (Theater.opening_hours x) (Theater.transport_howto x).

(** A lower-case hexadecimal digit. *)
Definition is_lower_hex (c : ascii) : Prop :=
  hex_lower c = Some c ∧ is_hex_space c = false.

(** The dates of the demo events: two on the day of seeding, the workshop
    three days later, or on the 28th where that is earlier. *)
Definition demo_dates (base_date : datetime) : list datetime :=
  [replace base_date None 19 30; replace base_date None 20 0;
   replace base_date (Some (Z.min (day base_date + 3) 28)) 18 0].

(** *** More sample data *)

(** A store whose Event collection is the given one. *)
Definition events_world (c : list doc) : world :=
  {| db := {[ "event" := c ]}; clock := sample_clock; ticks := 0; next_oid := 0 |}.

(** The sample event with another value for its seats, and without them. *)
Definition sample_event_with (v : value) : doc :=
  <["seats_available" := v]> (sample_event (VOid sample_oid) 60 5).

Definition sample_event_without_seats : doc :=
  delete "seats_available" (sample_event (VOid sample_oid) 60 5).


(** An event as the model has it. *)
Definition sample_Event : Event.t :=
  Event.mk "Impro am Kanal" "Improvisationstheater" "Impro"
    (Datetime 2026 11 5 20 0 0 0) 75 15.0 60 5 None.

(** Three requests for the sample event, and an order in which their
    store operations take turns. *)
Definition sample_requests : list Reservation.t :=
  [sample_request 3; sample_request 3; sample_request 2].

Definition sample_turns : list nat :=
  [0; 1; 2; 0; 1; 2; 2; 1; 0; 0; 1; 2]%nat.

(** * Properties *)

Set Warnings "-clear-no-such-hyp".

(** ** The comparison order *)

Lemma lex_leb_refl (a : list Z) : lex_leb a a = true.
Proof.
  induction a as [|x a IH]; simpl; [done|].
  rewrite Z.eqb_refl, IH. by rewrite orb_true_r.
Qed.

Lemma lex_leb_total (a b : list Z) : lex_leb a b = true ∨ lex_leb b a = true.
Proof.
  revert b; induction a as [|x a IH]; intros [|y b]; simpl; auto.
  destruct (Z.compare_spec x y) as [->|Hlt|Hgt].
  - rewrite Z.eqb_refl, Z.ltb_irrefl. simpl. apply IH.
  - left. apply orb_true_iff. left. by apply Z.ltb_lt.
  - right. apply orb_true_iff. left. by apply Z.ltb_lt.
Qed.

Lemma lex_leb_cons (x y : Z) (a b : list Z) :
  lex_leb (x :: a) (y :: b) = true ↔ x < y ∨ (x = y ∧ lex_leb a b = true).
Proof.
  simpl. rewrite orb_true_iff, andb_true_iff, Z.ltb_lt, Z.eqb_eq. tauto.
Qed.

Lemma lex_leb_trans (a b c : list Z) :
  lex_leb a b = true → lex_leb b c = true → lex_leb a c = true.
Proof.
  revert b c; induction a as [|x a IH]; intros [|y b] [|z c]; try done.
  rewrite !lex_leb_cons. intros [?|[-> ?]] [?|[-> ?]]; try (left; lia).
  right. split; [done|]. eauto.
Qed.

Lemma lex_leb_antisym (a b : list Z) :
  lex_leb a b = true → lex_leb b a = true → a = b.
Proof.
  revert b; induction a as [|x a IH]; intros [|y b]; try done.
  rewrite !lex_leb_cons. intros [?|[-> ?]] [?|[? ?]]; try lia.
  f_equal. eauto.
Qed.

Lemma codes_inj (s t : string) : codes s = codes t → s = t.
Proof.
  unfold codes. intros H.
  rewrite <- (string_of_list_ascii_of_string s), <- (string_of_list_ascii_of_string t).
  f_equal. revert H. generalize (list_ascii_of_string s) (list_ascii_of_string t).
  intros l; induction l as [|c l IH]; intros [|c' l']; simpl; try done.
  intros [= Hc Hl]. f_equal; [|by apply IH].
  apply N2Z.inj in Hc. rewrite <- (ascii_N_embedding c), <- (ascii_N_embedding c').
  by rewrite Hc.
Qed.

Lemma xnum_leb_total (a b : xnum) : xnum_leb a b = true ∨ xnum_leb b a = true.
Proof.
  destruct a as [| |p|], b as [| |q|]; simpl; auto.
  rewrite !Qle_bool_iff. destruct (Qlt_le_dec p q) as [H|H]; [left|right]; auto.
  by apply Qlt_le_weak.
Qed.

Lemma xnum_leb_trans (a b c : xnum) :
  xnum_leb a b = true → xnum_leb b c = true → xnum_leb a c = true.
Proof.
  destruct a as [| |p|], b as [| |q|], c as [| |r|]; simpl; try done.
  rewrite !Qle_bool_iff. apply Qle_trans.
Qed.

Lemma bson_leb_total (a b : value) : bson_leb a b = true ∨ bson_leb b a = true.
Proof.
  unfold bson_leb.
  destruct (Z.ltb_spec (bson_rank a) (bson_rank b)); [by left|].
  destruct (Z.ltb_spec (bson_rank b) (bson_rank a)); [by right|].
  destruct a, b; cbn [bson_rank] in *; try lia; cbv beta iota;
    auto using lex_leb_total, xnum_leb_total.
Qed.

Lemma bson_leb_trans (a b c : value) :
  bson_leb a b = true → bson_leb b c = true → bson_leb a c = true.
Proof.
  unfold bson_leb.
  destruct (Z.ltb_spec (bson_rank a) (bson_rank b)),
           (Z.ltb_spec (bson_rank b) (bson_rank a)),
           (Z.ltb_spec (bson_rank b) (bson_rank c)),
           (Z.ltb_spec (bson_rank c) (bson_rank b)),
           (Z.ltb_spec (bson_rank a) (bson_rank c)),
           (Z.ltb_spec (bson_rank c) (bson_rank a));
    try done; try lia.
  destruct a, b, c; cbn [bson_rank] in *; try lia; cbv beta iota; try done;
    eauto using lex_leb_trans, xnum_leb_trans.
Qed.

Lemma bson_leb_int (a b : Z) : bson_leb (VInt a) (VInt b) = (a <=? b).
Proof.
  unfold bson_leb; simpl. unfold Qle_bool; simpl. by rewrite !Z.mul_1_r.
Qed.

Lemma bson_eqb_oid (x : value) (h : string) :
  bson_eqb x (VOid h) = true ↔ x = VOid h.
Proof.
  split; [|intros ->; unfold bson_eqb, bson_leb; simpl; by rewrite lex_leb_refl].
  unfold bson_eqb, bson_leb. destruct x; simpl; try done.
  rewrite andb_true_iff. intros [H1 H2]. f_equal.
  apply codes_inj. by apply lex_leb_antisym.
Qed.

Lemma bson_eqb_str (x : value) (s : string) :
  bson_eqb x (VStr s) = true ↔ x = VStr s.
Proof.
  split; [|intros ->; unfold bson_eqb, bson_leb; simpl; by rewrite lex_leb_refl].
  unfold bson_eqb, bson_leb. destruct x; simpl; try done.
  rewrite andb_true_iff. intros [H1 H2]. f_equal.
  apply codes_inj. by apply lex_leb_antisym.
Qed.

(** ** Filters and collections *)

Lemma requested_id_is_id (res : Reservation.t) : is_id_value (requested_id res).
Proof. unfold requested_id. by destruct (ObjectId _). Qed.

Lemma cond_eq_id (v : value) (field : option value) :
  is_id_value v → cond_holds (Eq v) field = true ↔ field = Some v.
Proof.
  intros Hv. unfold cond_holds.
  destruct v; try done.
  - rewrite bson_eqb_str. destruct field; simpl; naive_solver.
  - rewrite bson_eqb_oid. destruct field; simpl; naive_solver.
Qed.

Lemma matches_id (v : value) (d : doc) :
  is_id_value v → matches [("_id", Eq v)] d = true ↔ d !! "_id" = Some v.
Proof.
  intros Hv. unfold matches. cbn [forallb fst snd].
  rewrite andb_true_r. by apply cond_eq_id.
Qed.

Lemma cond_gte_int (t a : Z) :
  cond_holds (Gte (VInt t)) (Some (VInt a)) = (t <=? a).
Proof. unfold cond_holds; simpl. by rewrite bson_leb_int. Qed.

Lemma matches_decrement (id : value) (t : Z) (d : doc) :
  is_id_value id →
  matches (decrement_filter id t) d = true ↔
  d !! "_id" = Some id ∧ cond_holds (Gte (VInt t)) (d !! "seats_available") = true.
Proof.
  intros Hid. unfold matches, decrement_filter. cbn [forallb fst snd].
  rewrite andb_true_r, andb_true_iff. by rewrite cond_eq_id.
Qed.

Lemma find_one_Some (f : filter) (c : list doc) (d : doc) :
  find_one f c = Some d ↔
  ∃ pre post, c = (pre ++ d :: post)%list ∧
              Forall (λ x, matches f x = false) pre ∧ matches f d = true.
Proof.
  unfold find_one, find. split.
  - induction c as [|x c IH]; simpl; [done|].
    destruct (matches f x) eqn:Hx; simpl.
    + intros [= ->]. by exists [], c.
    + intros (pre & post & -> & Hpre & Hd)%IH.
      exists (x :: pre), post. split; [done|]. split; [by constructor|done].
  - intros (pre & post & -> & Hpre & Hd).
    induction Hpre as [|x pre Hx _ IH]; simpl.
    + by rewrite Hd.
    + by rewrite Hx.
Qed.

Lemma find_one_None (f : filter) (c : list doc) :
  find_one f c = None ↔ Forall (λ x, matches f x = false) c.
Proof.
  unfold find_one, find. induction c as [|x c IH]; simpl.
  - split; [constructor|done].
  - destruct (matches f x) eqn:Hx; simpl.
    + split; [done|]. intros H. inversion H; congruence.
    + rewrite IH. split; [by constructor|]. intros H. by inversion H.
Qed.

Lemma find_one_and_update_hit (f : filter) (u : update) (pre post : list doc) (d : doc) :
  Forall (λ x, matches f x = false) pre → matches f d = true →
  find_one_and_update f u (pre ++ d :: post)%list =
  match apply_update u d with
  | Some d' => Some ((pre ++ d' :: post)%list, Some d')
  | None => None
  end.
Proof.
  intros Hpre Hd. induction Hpre as [|x pre Hx _ IH]; simpl.
  - by rewrite Hd.
  - rewrite Hx, IH. by destruct (apply_update u d).
Qed.

Lemma find_one_and_update_miss (f : filter) (u : update) (c : list doc) :
  Forall (λ x, matches f x = false) c → find_one_and_update f u c = Some (c, None).
Proof.
  induction 1 as [|x c Hx _ IH]; simpl; [done|]. by rewrite Hx, IH.
Qed.

(** Whatever the collection, the call either changes one matching document
    or changes nothing. *)
Lemma find_one_and_update_cases (f : filter) (u : update) (c c' : list doc)
    (r : option doc) :
  find_one_and_update f u c = Some (c', r) →
  (r = None ∧ c' = c ∧ Forall (λ x, matches f x = false) c) ∨
  ∃ pre d post d', r = Some d' ∧ c = (pre ++ d :: post)%list ∧
                   c' = (pre ++ d' :: post)%list ∧
                   Forall (λ x, matches f x = false) pre ∧
                   matches f d = true ∧ apply_update u d = Some d'.
Proof.
  revert c' r; induction c as [|x c IH]; simpl; intros c' r.
  - intros [= <- <-]. left. by repeat split.
  - destruct (matches f x) eqn:Hx.
    + destruct (apply_update u x) as [x'|] eqn:Hu; [|done].
      intros [= <- <-]. right. exists [], x, c, x'. by repeat split.
    + destruct (find_one_and_update f u c) as [[c'' r'']|] eqn:Hc; [|done].
      intros [= <- <-].
      destruct (IH _ _ eq_refl) as [(-> & -> & Hall)|(pre & d & post & d' & -> & -> & -> & Hpre & Hd & Hu)].
      * left. repeat split; by constructor.
      * right. exists (x :: pre), d, post, d'. repeat split; try done. by constructor.
Qed.

Lemma apply_decrement (t : Z) (now : datetime) (d : doc) (a : Z) :
  d !! "seats_available" = Some (VInt a) →
  int64_ok (- t) = true → int64_ok (a - t) = true →
  apply_update (decrement_update t now) d =
  Some (<["updated_at" := VDate (bson_datetime now)]> (<["seats_available" := VInt (a - t)]> d)).
Proof.
  intros Ha Ht Hat. unfold apply_update, decrement_update; simpl.
  unfold apply_inc; simpl. rewrite Ht; simpl. rewrite Ha.
  replace (a + - t) with (a - t) by lia. by rewrite Hat.
Qed.

(** The updated document keeps every field but the two that are written. *)
Lemma apply_decrement_inv (t : Z) (now : datetime) (d d' : doc) :
  apply_update (decrement_update t now) d = Some d' →
  d' !! "updated_at" = Some (VDate (bson_datetime now)) ∧
  ∀ k, k ≠ "updated_at" → k ≠ "seats_available" → d' !! k = d !! k.
Proof.
  unfold apply_update, decrement_update; simpl. unfold apply_inc; simpl.
  destruct (int64_ok (- t)); simpl; [|done].
  destruct (d !! "seats_available") as [[]|] eqn:Hd; simpl; try done;
    repeat case_match; simplify_eq/=; try done; intros [= <-].
  all: split; [by rewrite lookup_insert_eq|].
  all: intros k ? ?; by rewrite !lookup_insert_ne.
Qed.

Lemma int64_small (n : Z) : -10 ≤ n ≤ 70 → int64_ok n = true.
Proof. unfold int64_ok. intros. apply andb_true_iff. split; apply Z.leb_le; lia. Qed.

(** ** The handler step by step *)

Ltac unfold_M :=
  unfold mbind, M_bind, mret, M_ret, bind, ret, raise, query, getitem,
    advance in *.

Lemma collection_tick (name : string) (w : world) :
  collection name (tick w) = collection name w.
Proof. done. Qed.

Lemma collection_with_eq (name : string) (c : list doc) (w : world) :
  collection name (with_collection name c w) = c.
Proof. unfold collection, with_collection; simpl. by rewrite lookup_insert_eq. Qed.

Lemma collection_with_ne (name name' : string) (c : list doc) (w : world) :
  name ≠ name' → collection name' (with_collection name c w) = collection name' w.
Proof.
  intros. unfold collection, with_collection; simpl. by rewrite lookup_insert_ne.
Qed.

Lemma collection_after_create_eq (name : string) (data : doc) (w : world) :
  collection name (after_create name data w) =
  (collection name w ++
   [<["_id" := VOid (generated_oid (next_oid w))]>
      (<["created_at" := VDate (bson_datetime (clock w (ticks w)))]>
         (to_bson <$> data))])%list.
Proof. unfold collection at 1, after_create; simpl. by rewrite lookup_insert_eq. Qed.

Lemma collection_after_create_ne (name name' : string) (data : doc) (w : world) :
  name ≠ name' → collection name' (after_create name data w) = collection name' w.
Proof.
  intros. unfold collection, after_create; simpl. by rewrite lookup_insert_ne.
Qed.

Lemma create_document_eq (name : string) (data : doc) (w : world) :
  create_document name data w =
  (Return (generated_oid (next_oid w)), after_create name data w).
Proof.
  unfold create_document, after_create, insert_one, utcnow.
  unfold mbind, M_bind, bind. cbn [db clock ticks next_oid].
  by rewrite fmap_insert.
Qed.

Lemma truthy_found (v : value) (c : list doc) (d : doc) :
  is_id_value v → find_one [("_id", Eq v)] c = Some d →
  d !! "_id" = Some v ∧ truthy (Some d) = true.
Proof.
  intros Hv (pre & post & -> & _ & Hd)%find_one_Some.
  apply matches_id in Hd; [|done]. split; [done|].
  unfold truthy. apply negb_true_iff, bool_decide_eq_false.
  intros ->. by rewrite lookup_empty in Hd.
Qed.

Lemma step_probe (res : Reservation.t) (w : world) :
  step res AtProbe w = (AtLookup, w).
Proof. done. Qed.

Lemma step_lookup (res : Reservation.t) (w : world) :
  step res AtLookup w =
  match event_of_request res w with
  | None => (Done (Raise NotFound), w)
  | Some event =>
      match py_int (dict_get event "seats_available" (VInt 0)) with
      | None => (Done (Raise PyError), w)
      | Some seats =>
          if seats <? Reservation.tickets res
          then (Done (Raise InsufficientCapacity), w)
          else (AtUpdate event, w)
      end
  end.
Proof.
  unfold event_of_request, requested_id. cbn [step]. unfold_M.
  destruct (ObjectId (Reservation.event_id res)) as [oid|];
    match goal with
    | |- context [find_one [("_id", Eq ?v)] ?c] =>
        destruct (find_one [("_id", Eq v)] c) as [d|] eqn:Hf
    end; try done.
  all: apply truthy_found in Hf as [_ ->]; [|done]; simpl.
  all: destruct (py_int _) as [n|]; simpl; [|done].
  all: by destruct (n <? _).
Qed.

Lemma step_update (res : Reservation.t) (event : doc) (id : value) (w : world) :
  event !! "_id" = Some id →
  step res (AtUpdate event) w =
  match find_one_and_update
          (decrement_filter id (Reservation.tickets res))
          (decrement_update (Reservation.tickets res) (clock w (ticks w)))
          (collection (collection_name Event) w) with
  | None => (Done (Raise OperationFailure), tick w)
  | Some (_, None) => (Done (Raise Conflict), tick w)
  | Some (c', Some _) => (AtRecord, with_collection (collection_name Event) c' (tick w))
  end.
Proof.
  intros Hid. cbn [step]. unfold_M. rewrite Hid.
  unfold_M. unfold utcnow, db_find_one_and_update. cbn [db clock ticks next_oid].
  change (collection (collection_name Event) _) with
    (collection (collection_name Event) w).
  fold (decrement_filter id (Reservation.tickets res)).
  fold (decrement_update (Reservation.tickets res) (clock w (ticks w))).
  destruct (find_one_and_update _ _ _) as [[c' [d'|]]|] eqn:Hf; try done.
  apply find_one_and_update_cases in Hf
    as [(? & _)|(pre & d & post & d'' & [= <-] & _ & _ & _ & _ & Hu)]; [done|].
  apply apply_decrement_inv in Hu as [Hu _].
  assert (truthy (Some d') = true) as ->; [|done].
  unfold truthy. apply negb_true_iff, bool_decide_eq_false.
  intros ->. by rewrite lookup_empty in Hu.
Qed.

Lemma step_update_no_id (res : Reservation.t) (event : doc) (w : world) :
  event !! "_id" = None →
  step res (AtUpdate event) w = (Done (Raise (KeyError "_id")), w).
Proof. intros Hid. cbn [step]. unfold_M. by rewrite Hid. Qed.

Lemma step_record (res : Reservation.t) (w : world) :
  step res AtRecord w =
  (Done (Return (confirmed (generated_oid (next_oid w)))),
   after_create (collection_name Reservation) (Reservation.model_dump res) w).
Proof. done. Qed.

Lemma step_done (res : Reservation.t) (r : outcome ReservationResponse) (w : world) :
  step res (Done r) w = (Done r, w).
Proof. done. Qed.

Lemma create_reservation_eq (res : Reservation.t) (w : world) :
  create_reservation res w =
  match event_of_request res w with
  | None => (Raise NotFound, w)
  | Some event =>
      match py_int (dict_get event "seats_available" (VInt 0)) with
      | None => (Raise PyError, w)
      | Some seats =>
          if seats <? Reservation.tickets res
          then (Raise InsufficientCapacity, w)
          else
            match event !! "_id" with
            | None => (Raise (KeyError "_id"), w)
            | Some id =>
                match find_one_and_update
                        (decrement_filter id (Reservation.tickets res))
                        (decrement_update (Reservation.tickets res) (clock w (ticks w)))
                        (collection (collection_name Event) w) with
                | None => (Raise OperationFailure, tick w)
                | Some (_, None) => (Raise Conflict, tick w)
                | Some (c', Some _) =>
                    (Return (confirmed (generated_oid (next_oid w))),
                     after_create (collection_name Reservation)
                       (Reservation.model_dump res)
                       (with_collection (collection_name Event) c' (tick w)))
                end
            end
      end
  end.
Proof.
  unfold event_of_request, requested_id, create_reservation. unfold_M.
  destruct (ObjectId (Reservation.event_id res)) as [oid|];
    match goal with
    | |- context [find_one [("_id", Eq ?v)] ?c] =>
        destruct (find_one [("_id", Eq v)] c) as [d|] eqn:Hf
    end; try done.
  all: apply truthy_found in Hf as [Hid ->]; [|done]; simpl.
  all: destruct (py_int _) as [n|]; simpl; [|done].
  all: destruct (n <? _); [done|].
  all: rewrite Hid; unfold_M.
  all: unfold utcnow, db_find_one_and_update; cbn [db clock ticks next_oid].
  all: change (collection (collection_name Event) _) with
         (collection (collection_name Event) w).
  all: match goal with
       | |- context [find_one_and_update (("_id", Eq ?id) :: ?f) ?u ?c] =>
           change (("_id", Eq id) :: f)
             with (decrement_filter id (Reservation.tickets res));
           change u
             with (decrement_update (Reservation.tickets res) (clock w (ticks w)));
           destruct (find_one_and_update
                       (decrement_filter id (Reservation.tickets res))
                       (decrement_update (Reservation.tickets res) (clock w (ticks w))) c)
             as [[c' [d'|]]|] eqn:Hu
       end; try done.
  all: apply find_one_and_update_cases in Hu
       as [(? & _)|(pre & d0 & post & d'' & [= <-] & _ & _ & _ & _ & Hu)]; [done|].
  all: apply apply_decrement_inv in Hu as [Hu _].
  all: assert (truthy (Some d') = true) as ->;
       [unfold truthy; apply negb_true_iff, bool_decide_eq_false;
        intros ->; by rewrite lookup_empty in Hu|done].
Qed.

(** Served alone, a request is the handler: the four store operations in
    a row give the response and the world of [create_reservation]. *)
Lemma run_alone (res : Reservation.t) (w : world) :
  run res 4 AtProbe w =
  (Done (create_reservation res w).1, (create_reservation res w).2).
Proof.
  rewrite create_reservation_eq.
  cbn [run]. rewrite step_probe, step_lookup.
  destruct (event_of_request res w) as [event|]; [|done].
  destruct (py_int _) as [seats|]; [|done].
  destruct (seats <? _); [done|].
  destruct (event !! "_id") as [id|] eqn:Hid.
  - rewrite (step_update _ _ _ _ Hid).
    by destruct (find_one_and_update _ _ _) as [[c' [d'|]]|].
  - by rewrite step_update_no_id.
Qed.

(** ** Reservations *)

Lemma event_of_request_split (res : Reservation.t) (w : world) (ev : doc) :
  event_of_request res w = Some ev →
  ∃ pre post,
    collection (collection_name Event) w = (pre ++ ev :: post)%list ∧
    Forall (λ d, d !! "_id" ≠ Some (requested_id res)) pre ∧
    ev !! "_id" = Some (requested_id res).
Proof.
  pose proof (requested_id_is_id res) as Hid.
  intros (pre & post & Hc & Hpre & Hev)%find_one_Some.
  exists pre, post. split; [done|]. split; [|by apply matches_id].
  eapply Forall_impl; [exact Hpre|]. intros d Hd Heq.
  apply matches_id in Heq; [congruence|done].
Qed.

Lemma event_of_request_found (res : Reservation.t) (w : world)
    (pre post : list doc) (ev : doc) :
  collection (collection_name Event) w = (pre ++ ev :: post)%list →
  Forall (λ d, d !! "_id" ≠ Some (requested_id res)) pre →
  ev !! "_id" = Some (requested_id res) →
  event_of_request res w = Some ev.
Proof.
  pose proof (requested_id_is_id res) as Hid.
  intros Hc Hpre Hev. apply find_one_Some. exists pre, post.
  split; [done|]. split; [|by apply matches_id].
  eapply Forall_impl; [exact Hpre|]. intros d Hd.
  apply not_true_is_false. by rewrite matches_id.
Qed.

Lemma decrement_skips (id : value) (t : Z) (l : list doc) :
  is_id_value id →
  Forall (λ d, d !! "_id" ≠ Some id) l →
  Forall (λ d, matches (decrement_filter id t) d = false) l.
Proof.
  intros Hid Hl. eapply Forall_impl; [exact Hl|]. intros d Hd.
  apply not_true_is_false. rewrite matches_decrement by done.
  by intros [? _].
Qed.

(** The conditional decrement on the document that the request is for. *)
Lemma decrement_hit (res : Reservation.t) (now : datetime)
    (pre post : list doc) (ev : doc) (a : Z) :
  Forall (λ d, d !! "_id" ≠ Some (requested_id res)) pre →
  ev !! "_id" = Some (requested_id res) →
  ev !! "seats_available" = Some (VInt a) →
  Reservation.tickets res ≤ a →
  int64_ok (- Reservation.tickets res) = true →
  int64_ok (a - Reservation.tickets res) = true →
  let ev' := <["updated_at" := VDate (bson_datetime now)]>
               (<["seats_available" := VInt (a - Reservation.tickets res)]> ev) in
  find_one_and_update
    (decrement_filter (requested_id res) (Reservation.tickets res))
    (decrement_update (Reservation.tickets res) now)
    (pre ++ ev :: post)%list
  = Some ((pre ++ ev' :: post)%list, Some ev').
Proof.
  pose proof (requested_id_is_id res) as Hid.
  intros Hpre Hev Ha Hle Ht Hat ev'.
  rewrite find_one_and_update_hit.
  - by rewrite (apply_decrement _ _ _ a).
  - by apply decrement_skips.
  - apply matches_decrement; [done|]. split; [done|].
    rewrite Ha, cond_gte_int. by apply Z.leb_le.
Qed.

Lemma same_event_id (res res2 : Reservation.t) :
  Reservation.event_id res2 = Reservation.event_id res →
  requested_id res2 = requested_id res.
Proof. unfold requested_id. by intros ->. Qed.

(** C5: a request whose [event_id] is the [_id] of no Event document, as
    text or as ObjectId, is refused with 404 "Event not found", and the
    world is left exactly as it was: no collection is written. *)
Theorem reserve_unknown_event (res : Reservation.t) (w : world) :
  Forall (λ d, ¬ has_event_id (Reservation.event_id res) d)
         (collection (collection_name Event) w) →
  create_reservation res w = (Raise NotFound, w).
Proof.
  intros Hnone. rewrite create_reservation_eq.
  assert (event_of_request res w = None) as ->; [|done].
  apply find_one_None. eapply Forall_impl; [exact Hnone|].
  intros d Hd. apply not_true_is_false. intros Hm.
  apply matches_id in Hm; [|apply requested_id_is_id].
  apply Hd. unfold has_event_id. unfold requested_id in Hm.
  destruct (ObjectId (Reservation.event_id res)) as [oid|]; eauto.
Qed.


(** ** The seat invariant *)

Lemma decremented_refl (t : Z) (c : list doc) : Forall2 (decremented t) c c.
Proof. induction c; constructor; [by left|done]. Qed.

Lemma decremented_inv (t : Z) (d d' : doc) :
  0 ≤ t → seats_inv d → decremented t d d' → seats_inv d'.
Proof.
  intros Ht (a & n & Ha & Hn & Hr) [->|(a' & Ha' & Hle & Hd' & Hn' & _)].
  - by exists a, n.
  - exists (a' - t), n. rewrite Hd', Hn', Hn. repeat split; try done.
    all: assert (a' = a) by congruence; lia.
Qed.

Lemma decremented_all_inv (t : Z) (c c' : list doc) :
  0 ≤ t → Forall seats_inv c → Forall2 (decremented t) c c' → Forall seats_inv c'.
Proof.
  intros Ht Hc H. induction H as [|d d' c c' Hd _ IH]; [constructor|].
  inversion Hc; subst. constructor; eauto using decremented_inv.
Qed.

(** The conditional decrement touches a document only to take [t] seats
    from at least [t] available ones. *)
Lemma update_decremented (id : value) (t : Z) (now : datetime)
    (c c' : list doc) (r : option doc) :
  Forall seats_inv c →
  find_one_and_update (decrement_filter id t) (decrement_update t now) c
    = Some (c', r) →
  Forall2 (decremented t) c c'.
Proof.
  intros Hinv Hf.
  apply find_one_and_update_cases in Hf
    as [(_ & -> & _)|(pre & d & post & d' & _ & -> & -> & _ & Hm & Hu)].
  { apply decremented_refl. }
  apply Forall2_app; [apply decremented_refl|].
  constructor; [|apply decremented_refl].
  apply Forall_app in Hinv as [_ Hinv]. inversion Hinv as [|? ? Hd _]; subst.
  destruct Hd as (a & n & Ha & Hn & Hr).
  right. exists a.
  unfold matches, decrement_filter in Hm. cbn [forallb fst snd] in Hm.
  apply andb_true_iff in Hm as [_ Hm]. apply andb_true_iff in Hm as [Hm _].
  rewrite Ha, cond_gte_int in Hm. apply Z.leb_le in Hm.
  pose proof (apply_decrement_inv _ _ _ _ Hu) as [_ Hkeep].
  unfold apply_update, decrement_update in Hu; simpl in Hu.
  unfold apply_inc in Hu; simpl in Hu. rewrite Ha in Hu.
  destruct (int64_ok (- t)); simpl in Hu; [|done].
  destruct (int64_ok (a + - t)); simpl in Hu; [|done].
  injection Hu as <-.
  repeat split; try done.
  all: rewrite ?lookup_insert_ne by done; rewrite ?lookup_insert_eq; try done.
Qed.

Lemma step_decremented (res : Reservation.t) (p : pc) (w : world) :
  events_inv w →
  Forall2 (decremented (Reservation.tickets res))
    (collection (collection_name Event) w)
    (collection (collection_name Event) (step res p w).2).
Proof.
  unfold events_inv. intros Hinv. destruct p as [| |event| |r].
  - rewrite step_probe. apply decremented_refl.
  - rewrite step_lookup. repeat case_match; apply decremented_refl.
  - destruct (event !! "_id") as [id|] eqn:Hid.
    + rewrite (step_update _ _ _ _ Hid).
      destruct (find_one_and_update _ _ _) as [[c' [d'|]]|] eqn:Hf; simpl;
        rewrite ?collection_tick; try apply decremented_refl.
      rewrite collection_with_eq. by eapply update_decremented.
    + rewrite step_update_no_id by done. apply decremented_refl.
  - rewrite step_record. simpl. rewrite collection_after_create_ne by done.
    apply decremented_refl.
  - apply decremented_refl.
Qed.

Lemma create_reservation_decremented (res : Reservation.t) (w : world) :
  events_inv w →
  Forall2 (decremented (Reservation.tickets res))
    (collection (collection_name Event) w)
    (collection (collection_name Event) (create_reservation res w).2).
Proof.
  unfold events_inv. intros Hinv. rewrite create_reservation_eq.
  repeat case_match; simpl; rewrite ?collection_tick; try apply decremented_refl.
  rewrite collection_after_create_ne by done. rewrite collection_with_eq.
  by eapply update_decremented.
Qed.

(** C2: [0 ≤ seats_available ≤ seats_total] on every Event document is
    kept by every reservation attempt, whatever its outcome, and by each
    single store operation of an attempt; an attempt changes an Event
    document only by taking the requested tickets from at least as many
    available seats. *)
Theorem seats_invariant_preserved (res : Reservation.t) (w : world) :
  1 ≤ Reservation.tickets res ≤ 10 →
  events_inv w →
  events_inv (create_reservation res w).2 ∧
  (∀ p : pc, events_inv (step res p w).2) ∧
  Forall2 (decremented (Reservation.tickets res))
    (collection (collection_name Event) w)
    (collection (collection_name Event) (create_reservation res w).2).
Proof.
  intros Ht Hinv. split; [|split].
  - eapply decremented_all_inv;
      [|exact Hinv|by apply create_reservation_decremented]. lia.
  - intros p. eapply decremented_all_inv;
      [|exact Hinv|by apply step_decremented]. lia.
  - by apply create_reservation_decremented.
Qed.

(** C4: with the event found and [seats] read from it, a request for more
    than [seats] tickets is refused with 400 "Not enough seats available"
    before any update, the world untouched; a request that passes this
    check goes on to the conditional update, and if that update then
    matches no document the request is refused with 409 "Seats no longer
    available", no collection written (no Reservation record either way). *)
Theorem capacity_failures_distinguished
    (res : Reservation.t) (w : world) (event : doc) (seats : Z) :
  event_of_request res w = Some event →
  py_int (dict_get event "seats_available" (VInt 0)) = Some seats →
  (seats < Reservation.tickets res →
     create_reservation res w = (Raise InsufficientCapacity, w) ∧
     step res AtLookup w = (Done (Raise InsufficientCapacity), w)) ∧
  (Reservation.tickets res ≤ seats →
     step res AtLookup w = (AtUpdate event, w) ∧
     ∀ w1 : world,
       Forall (λ d, matches (decrement_filter (requested_id res)
                               (Reservation.tickets res)) d = false)
              (collection (collection_name Event) w1) →
       step res (AtUpdate event) w1 = (Done (Raise Conflict), tick w1) ∧
       db (tick w1) = db w1).
Proof.
  intros Hev Hseats. split.
  - intros Hlt. rewrite create_reservation_eq, step_lookup, Hev, Hseats.
    destruct (Z.ltb_spec seats (Reservation.tickets res)); [done|lia].
  - intros Hle. split.
    + rewrite step_lookup, Hev, Hseats.
      destruct (Z.ltb_spec seats (Reservation.tickets res)); [lia|done].
    + intros w1 Hmiss. split; [|done].
      destruct (event_of_request_split _ _ _ Hev) as (_ & _ & _ & _ & Hid).
      rewrite (step_update _ _ _ _ Hid).
      by rewrite find_one_and_update_miss.
Qed.

(** ** Two requests for the same seats *)

Section Race.
Variable res : Reservation.t.
Hypothesis three : Reservation.tickets res = 3.

Let rid := requested_id res.

Lemma only_event_lookup (n : Z) (w : world) :
  only_event rid n w →
  ∃ e, event_of_request res w = Some e ∧ e !! "_id" = Some rid ∧
       py_int (dict_get e "seats_available" (VInt 0)) = Some n.
Proof.
  intros (pre & e & post & Hc & Hpre & _ & Hid & Hn).
  exists e. split; [by eapply event_of_request_found|]. split; [done|].
  unfold dict_get. by rewrite Hn.
Qed.

Lemma pending_step_5 (w : world) (p : pc) :
  only_event rid 5 w → pending rid p →
  (only_event rid 5 (step res p w).2 ∧ pending rid (step res p w).1) ∨
  (only_event rid 2 (step res p w).2 ∧ winning (step res p w).1).
Proof.
  intros Hw [->|[->|(e & -> & He)]].
  - left. rewrite step_probe. split; [done|]. right. by left.
  - left. rewrite step_lookup.
    destruct (only_event_lookup _ _ Hw) as (e & -> & He & ->).
    rewrite three. simpl. split; [done|]. right. right. by exists e.
  - right. rewrite (step_update _ _ _ _ He).
    destruct Hw as (pre & e0 & post & Hc & Hpre & Hpost & Hid & Hn).
    rewrite Hc. unfold rid in *.
    rewrite (decrement_hit _ _ _ _ _ 5); try done.
    2: rewrite three; lia.
    2, 3: apply int64_small; rewrite three; lia.
    simpl. split; [|by left].
    eexists pre, _, post. rewrite collection_with_eq.
    split; [done|]. split; [done|]. split; [done|].
    split; [by rewrite !lookup_insert_ne|].
    rewrite lookup_insert_ne by done. rewrite lookup_insert_eq.
    by rewrite three.
Qed.

Lemma pending_step_2 (w : world) (p : pc) :
  only_event rid 2 w → pending rid p →
  only_event rid 2 (step res p w).2 ∧
  (pending rid (step res p w).1 ∨ refused (step res p w).1).
Proof.
  intros Hw [->|[->|(e & -> & He)]].
  - rewrite step_probe. split; [done|]. left. right. by left.
  - rewrite step_lookup.
    destruct (only_event_lookup _ _ Hw) as (e & -> & He & ->).
    rewrite three. simpl. split; [done|]. right. by left.
  - rewrite (step_update _ _ _ _ He).
    pose proof Hw as (pre & e0 & post & Hc & Hpre & Hpost & Hid & Hn).
    rewrite find_one_and_update_miss.
    { simpl. split; [done|]. right. by right. }
    rewrite Hc. apply Forall_app. split; [|constructor].
    + apply decrement_skips; [apply requested_id_is_id|done].
    + apply not_true_is_false. rewrite matches_decrement
        by apply requested_id_is_id.
      intros [_ Hm]. rewrite Hn, cond_gte_int, three in Hm. done.
    + apply decrement_skips; [apply requested_id_is_id|done].
Qed.

Lemma winning_step (n : Z) (w : world) (p : pc) :
  only_event rid n w → winning p →
  only_event rid n (step res p w).2 ∧ winning (step res p w).1.
Proof.
  intros Hw [->|[r ->]].
  - rewrite step_record. simpl. split; [|right; by eexists].
    destruct Hw as (pre & e & post & Hc & H).
    exists pre, e, post. by rewrite collection_after_create_ne.
  - split; [done|]. right. by exists r.
Qed.

Lemma refused_step (w : world) (p : pc) :
  refused p → step res p w = (p, w).
Proof. by intros [->| ->]. Qed.

Lemma step_progress (w : world) (p : pc) :
  (Nat.min 4 (S (progress p)) ≤ progress (step res p w).1)%nat.
Proof.
  destruct p as [| |e| |r]; cbn [progress].
  - rewrite step_probe. simpl. lia.
  - rewrite step_lookup. repeat case_match; simpl; lia.
  - cbn [step]. unfold advance. case_match. case_match; simpl; lia.
  - rewrite step_record. simpl. lia.
  - simpl. lia.
Qed.
End Race.

Lemma progress_done (p : pc) : (4 ≤ progress p)%nat → ∃ r, p = Done r.
Proof. destruct p; simpl; try lia. by eexists. Qed.

Lemma pending_not_done (id : value) (p : pc) (r : outcome ReservationResponse) :
  pending id p → p ≠ Done r.
Proof. by intros [->|[->|(e & -> & _)]]. Qed.

Lemma sched_step_first (res1 res2 : Reservation.t) (c : config) :
  sched_step res1 res2 c true =
  {| shared := (step res1 (pc1 c) (shared c)).2;
     pc1 := (step res1 (pc1 c) (shared c)).1; pc2 := pc2 c |}.
Proof. unfold sched_step. by destruct (step res1 _ _). Qed.

Lemma sched_step_second (res1 res2 : Reservation.t) (c : config) :
  sched_step res1 res2 c false =
  {| shared := (step res2 (pc2 c) (shared c)).2;
     pc1 := pc1 c; pc2 := (step res2 (pc2 c) (shared c)).1 |}.
Proof. unfold sched_step. by destruct (step res2 _ _). Qed.

Section TwoRequests.
Variables res1 res2 : Reservation.t.
Hypothesis same : Reservation.event_id res2 = Reservation.event_id res1.
Hypothesis three1 : Reservation.tickets res1 = 3.
Hypothesis three2 : Reservation.tickets res2 = 3.

Lemma race_inv_step (c : config) (pick : bool) :
  race_inv (requested_id res1) c →
  race_inv (requested_id res1) (sched_step res1 res2 c pick).
Proof.
  pose proof (same_event_id _ _ same) as Hrid.
  unfold race_inv.
  destruct pick; rewrite ?sched_step_first, ?sched_step_second; cbn [shared pc1 pc2].
  - intros [(Hw & Hp1 & Hp2)|(Hw & [(Hp1 & Hp2)|(Hp1 & Hp2)])].
    + destruct (pending_step_5 res1 three1 _ _ Hw Hp1) as [[? ?]|[? ?]]; [left|right]; auto.
    + right. destruct (winning_step res1 _ _ _ Hw Hp1) as [? ?]. auto.
    + right. destruct Hp1 as [Hp1|Hp1].
      * destruct (pending_step_2 res1 three1 _ _ Hw Hp1) as [? ?]. auto.
      * rewrite (refused_step res1 _ _ Hp1). simpl. auto.
  - rewrite <- Hrid.
    intros [(Hw & Hp1 & Hp2)|(Hw & [(Hp1 & Hp2)|(Hp1 & Hp2)])].
    + destruct (pending_step_5 res2 three2 _ _ Hw Hp2) as [[? ?]|[? ?]]; [left|right]; auto.
    + right. destruct Hp2 as [Hp2|Hp2].
      * destruct (pending_step_2 res2 three2 _ _ Hw Hp2) as [? ?]. auto.
      * rewrite (refused_step res2 _ _ Hp2). simpl. auto.
    + right. destruct (winning_step res2 _ _ _ Hw Hp2) as [? ?]. auto.
Qed.

Lemma race_inv_run (s : list bool) (c : config) :
  race_inv (requested_id res1) c →
  race_inv (requested_id res1) (run_schedule res1 res2 s c).
Proof.
  revert c; induction s as [|b s IH]; intros c Hc; [done|].
  apply IH. by apply race_inv_step.
Qed.

Lemma run_progress (s : list bool) (c : config) :
  (Nat.min 4 (progress (pc1 c) + picks true s)
     ≤ progress (pc1 (run_schedule res1 res2 s c)))%nat ∧
  (Nat.min 4 (progress (pc2 c) + picks false s)
     ≤ progress (pc2 (run_schedule res1 res2 s c)))%nat.
Proof.
  revert c; induction s as [|b s IH]; intros c.
  { unfold run_schedule, picks; cbn [fold_left List.filter length]. lia. }
  change (run_schedule res1 res2 (b :: s) c)
    with (run_schedule res1 res2 s (sched_step res1 res2 c b)).
  destruct (IH (sched_step res1 res2 c b)) as [IH1 IH2].
  destruct b; rewrite ?sched_step_first, ?sched_step_second in *;
    cbn [shared pc1 pc2] in *; unfold picks in *;
    cbn [List.filter Bool.eqb length].
  - pose proof (step_progress res1 (shared c) (pc1 c)). lia.
  - pose proof (step_progress res2 (shared c) (pc2 c)). lia.
Qed.
End TwoRequests.

(** ** The order of the read and the update *)

Lemma picks_cons (b x : bool) (s : list bool) :
  picks b (x :: s) = ((if Bool.eqb b x then 1 else 0) + picks b s)%nat.
Proof. unfold picks. cbn [List.filter]. by destruct (Bool.eqb b x). Qed.

Lemma picks_app (b : bool) (s t : list bool) :
  picks b (s ++ t) = (picks b s + picks b t)%nat.
Proof. unfold picks. by rewrite List.filter_app, length_app. Qed.

(** The request that is first to make its third operation. *)
Lemma first_update (s : list bool) (n1 n2 : nat) :
  (n1 ≤ 2)%nat → (n2 ≤ 2)%nat →
  (3 ≤ n1 + picks true s)%nat → (3 ≤ n2 + picks false s)%nat →
  ∃ (b : bool) (p q : list bool),
    s = (p ++ b :: q)%list ∧
    ((if b then n1 else n2) + picks b p = 2)%nat ∧
    ((if b then n2 else n1) + picks (negb b) p ≤ 2)%nat.
Proof.
  revert n1 n2. induction s as [|x s IH]; intros n1 n2 H1 H2 H3 H4.
  { unfold picks in *. simpl in *. lia. }
  rewrite !picks_cons in *.
  destruct x; cbn [Bool.eqb] in *.
  - destruct (decide (n1 = 2%nat)) as [->|Hn].
    + exists true, [], s. unfold picks. simpl. split; [done|lia].
    + destruct (IH (S n1) n2) as (b & p & q & -> & Hp & Hq); [lia..|].
      exists b, (true :: p), q. rewrite !picks_cons.
      split; [done|]. destruct b; cbn [Bool.eqb negb] in *; lia.
  - destruct (decide (n2 = 2%nat)) as [->|Hn].
    + exists false, [], s. unfold picks. simpl. split; [done|lia].
    + destruct (IH n1 (S n2)) as (b & p & q & -> & Hp & Hq); [lia..|].
      exists b, (false :: p), q. rewrite !picks_cons.
      split; [done|]. destruct b; cbn [Bool.eqb negb] in *; lia.
Qed.

Section Order.
Variable res : Reservation.t.
Hypothesis three : Reservation.tickets res = 3.

Lemma before_update_step (n : nat) (w : world) (p : pc) :
  only_event (requested_id res) 5 w → before_update (requested_id res) n p →
  (n < 2)%nat →
  step res p w = ((step res p w).1, w) ∧
  before_update (requested_id res) (S n) (step res p w).1.
Proof.
  intros Hw Hp Hn. destruct n as [|[|n]]; [| |lia]; cbn [before_update] in *; subst p.
  - by rewrite step_probe.
  - rewrite step_lookup.
    destruct (only_event_lookup res _ _ Hw) as (e & -> & He & ->).
    rewrite three. cbn. split; [done|]. by exists e.
Qed.

Lemma update_step (w : world) (p : pc) :
  only_event (requested_id res) 5 w → before_update (requested_id res) 2 p →
  only_event (requested_id res) 2 (step res p w).2 ∧ (step res p w).1 = AtRecord.
Proof.
  intros Hw (e & -> & He). rewrite (step_update _ _ _ _ He).
  destruct Hw as (pre & e0 & post & Hc & Hpre & Hpost & Hid & Hn).
  rewrite Hc. rewrite (decrement_hit _ _ _ _ _ 5); try done.
  2: rewrite three; lia.
  2, 3: apply int64_small; rewrite three; lia.
  cbn [fst snd]. split; [|done].
  eexists pre, _, post. rewrite collection_with_eq.
  split; [done|]. split; [done|]. split; [done|].
  split; [by rewrite !lookup_insert_ne|].
  rewrite lookup_insert_ne by done. rewrite lookup_insert_eq.
  by rewrite three.
Qed.

Lemma winner_step (n : nat) (w : world) (p : pc) :
  only_event (requested_id res) 2 w → winner_at n p →
  only_event (requested_id res) 2 (step res p w).2 ∧ winner_at (S n) (step res p w).1.
Proof.
  intros Hw Hp.
  destruct (winning_step res 2 w p Hw) as [H1 H2].
  { destruct Hp as [[_ ->]|[_ ?]]; [by left|by right]. }
  split; [done|]. right. split; [destruct Hp as [[? _]|[? _]]; lia|].
  destruct Hp as [[_ ->]|[_ [r ->]]].
  - rewrite step_record. by eexists.
  - by exists r.
Qed.

Lemma loser_step (rb : bool) (n : nat) (w : world) (p : pc) :
  only_event (requested_id res) 2 w → loser_at (requested_id res) rb n p →
  only_event (requested_id res) 2 (step res p w).2 ∧
  loser_at (requested_id res) rb (S n) (step res p w).1.
Proof.
  intros Hw Hp. destruct rb; cbn [loser_at] in *.
  - destruct Hp as [[-> (e & -> & He)]|[Hn ->]].
    + destruct (pending_step_2 res three w (AtUpdate e) Hw) as [H1 H2].
      { right. right. by exists e. }
      split; [done|]. right. split; [lia|].
      rewrite (step_update _ _ _ _ He) in *.
      destruct Hw as (pre & e0 & post & Hc & Hpre & Hpost & Hid & Hs).
      rewrite find_one_and_update_miss; [done|].
      rewrite Hc. apply Forall_app. split; [|constructor].
      * apply decrement_skips; [apply requested_id_is_id|done].
      * apply not_true_is_false. rewrite matches_decrement
          by apply requested_id_is_id.
        intros [_ Hm]. rewrite Hs, cond_gte_int, three in Hm. done.
      * apply decrement_skips; [apply requested_id_is_id|done].
    + rewrite step_done. split; [done|]. right. split; [lia|done].
  - destruct Hp as [[-> ->]|[[-> ->]|[Hn ->]]].
    + rewrite step_probe. split; [done|]. right. left. done.
    + rewrite step_lookup.
      destruct (only_event_lookup res _ _ Hw) as (e & -> & He & ->).
      rewrite three. cbn. split; [done|]. right. right. split; [lia|done].
    + rewrite step_done. split; [done|]. right. right. split; [lia|done].
Qed.
End Order.

Section OrderedPair.
Variables res1 res2 : Reservation.t.
Hypothesis same : Reservation.event_id res2 = Reservation.event_id res1.
Hypothesis three1 : Reservation.tickets res1 = 3.
Hypothesis three2 : Reservation.tickets res2 = 3.

Let rid := requested_id res1.
Let req (b : bool) := if b then res1 else res2.

Lemma req_id (b : bool) : requested_id (req b) = rid.
Proof. destruct b; [done|]. by apply same_event_id. Qed.

Lemma req_three (b : bool) : Reservation.tickets (req b) = 3.
Proof. by destruct b. Qed.

Lemma sched_step_pick (c : config) (b : bool) :
  shared (sched_step res1 res2 c b) = (step (req b) (pc_of b c) (shared c)).2 ∧
  pc_of b (sched_step res1 res2 c b) = (step (req b) (pc_of b c) (shared c)).1 ∧
  pc_of (negb b) (sched_step res1 res2 c b) = pc_of (negb b) c.
Proof. destruct b; rewrite ?sched_step_first, ?sched_step_second; done. Qed.

Lemma pc_of_other (c : config) (b x : bool) :
  x ≠ b → pc_of b (sched_step res1 res2 c x) = pc_of b c.
Proof.
  intros Hx. destruct (sched_step_pick c x) as (_ & _ & H).
  by destruct b, x.
Qed.

(** Until the first update the store is as it was, and each request is
    where the number of its operations puts it. *)
Lemma reads_run (p : list bool) (c : config) (n : bool → nat) :
  only_event rid 5 (shared c) →
  (∀ b, before_update rid (n b) (pc_of b c)) →
  (∀ b, n b + picks b p ≤ 2)%nat →
  only_event rid 5 (shared (run_schedule res1 res2 p c)) ∧
  ∀ b, before_update rid (n b + picks b p)%nat
         (pc_of b (run_schedule res1 res2 p c)).
Proof.
  revert c n. induction p as [|x p IH]; intros c n Hw Hpc Hn.
  { split; [done|]. intros b. unfold picks. simpl. by rewrite Nat.add_0_r. }
  change (run_schedule res1 res2 (x :: p) c)
    with (run_schedule res1 res2 p (sched_step res1 res2 c x)).
  destruct (sched_step_pick c x) as (Hs & Hx & _).
  assert (n x < 2)%nat as Hlt.
  { specialize (Hn x). rewrite picks_cons in Hn.
    replace (Bool.eqb x x) with true in Hn by (by destruct x). lia. }
  destruct (before_update_step (req x) (req_three x) (n x) (shared c) (pc_of x c))
    as [Hstep Hnext]; rewrite ?req_id; [done|apply Hpc|done|].
  rewrite req_id in Hnext.
  destruct (IH (sched_step res1 res2 c x)
              (λ b, if Bool.eqb b x then S (n b) else n b)) as [IH1 IH2].
  - rewrite Hs, Hstep. done.
  - intros b. destruct (Bool.eqb b x) eqn:Hb.
    + apply Bool.eqb_prop in Hb as ->. by rewrite Hx.
    + rewrite pc_of_other; [apply Hpc|]. intros ->. by destruct b.
  - intros b. specialize (Hn b). rewrite picks_cons in Hn.
    destruct (Bool.eqb b x); lia.
  - split; [done|]. intros b. specialize (IH2 b). rewrite picks_cons.
    destruct (Bool.eqb b x); [|done].
    by replace (n b + (1 + picks b p))%nat with (S (n b) + picks b p)%nat by lia.
Qed.

(** After the first update: two seats are left, the request that made it
    goes on to its record, and the other is refused, with Conflict when it
    had read the event before and with InsufficientCapacity when it had not. *)
Lemma rest_run (q : list bool) (c : config) (b rb : bool) (nw nl : nat) :
  only_event rid 2 (shared c) →
  winner_at nw (pc_of b c) →
  loser_at rid rb nl (pc_of (negb b) c) →
  only_event rid 2 (shared (run_schedule res1 res2 q c)) ∧
  winner_at (nw + picks b q) (pc_of b (run_schedule res1 res2 q c)) ∧
  loser_at rid rb (nl + picks (negb b) q)
    (pc_of (negb b) (run_schedule res1 res2 q c)).
Proof.
  revert c nw nl. induction q as [|x q IH]; intros c nw nl Hw Hwin Hlose.
  { unfold picks. simpl. by rewrite !Nat.add_0_r. }
  change (run_schedule res1 res2 (x :: q) c)
    with (run_schedule res1 res2 q (sched_step res1 res2 c x)).
  rewrite !picks_cons.
  destruct (sched_step_pick c x) as (Hs & Hx & Ho).
  destruct (decide (x = b)) as [->|Hxb].
  - destruct (winner_step (req b) nw (shared c) (pc_of b c)) as [H1 H2];
      rewrite ?req_id; [done..|]. rewrite req_id in H1.
    destruct (IH (sched_step res1 res2 c b) (S nw) nl) as (I1 & I2 & I3).
    + by rewrite Hs.
    + by rewrite Hx.
    + by rewrite Ho.
    + replace (Bool.eqb b b) with true by (by destruct b).
      replace (Bool.eqb (negb b) b) with false by (by destruct b).
      by replace (nw + (1 + picks b q))%nat with (S nw + picks b q)%nat by lia.
  - assert (x = negb b) as -> by (by destruct x, b).
    rewrite negb_involutive in Ho.
    destruct (loser_step (req (negb b)) (req_three (negb b)) rb nl (shared c)
                (pc_of (negb b) c)) as [H1 H2]; rewrite ?req_id; [done..|].
    rewrite req_id in H1, H2.
    destruct (IH (sched_step res1 res2 c (negb b)) nw (S nl)) as (I1 & I2 & I3).
    + by rewrite Hs.
    + by rewrite Ho.
    + by rewrite Hx.
    + replace (Bool.eqb b (negb b)) with false by (by destruct b).
      replace (Bool.eqb (negb b) (negb b)) with true by (by destruct b).
      by replace (nl + (1 + picks (negb b) q))%nat
        with (S nl + picks (negb b) q)%nat by lia.
Qed.

Lemma ordered_run (w : world) (b : bool) (p q : list bool) :
  only_event rid 5 w →
  picks b p = 2%nat → (picks (negb b) p ≤ 2)%nat →
  (4 ≤ picks b (p ++ b :: q))%nat → (4 ≤ picks (negb b) (p ++ b :: q))%nat →
  let c := run_schedule res1 res2 (p ++ b :: q) (Config w AtProbe AtProbe) in
  succeeded (pc_of b c) ∧
  pc_of (negb b) c =
    Done (Raise (if (picks (negb b) p =? 2)%nat
                 then Conflict else InsufficientCapacity)) ∧
  only_event rid 2 (shared c).
Proof.
  intros Hw Hb Hnb H4 H4' c.
  unfold c, run_schedule. rewrite fold_left_app. cbn [fold_left].
  fold (run_schedule res1 res2 p (Config w AtProbe AtProbe)).
  set (c1 := run_schedule res1 res2 p (Config w AtProbe AtProbe)).
  fold (run_schedule res1 res2 q (sched_step res1 res2 c1 b)).
  destruct (reads_run p (Config w AtProbe AtProbe) (λ _, 0%nat)) as [Hw1 Hpc1].
  { done. }
  { by intros []. }
  { intros x. destruct (decide (x = b)) as [->|Hx]; [lia|].
    assert (x = negb b) as -> by (by destruct x, b). lia. }
  fold c1 in Hw1, Hpc1. cbn [Nat.add] in Hpc1.
  destruct (sched_step_pick c1 b) as (Hs & Hx & Ho).
  destruct (update_step (req b) (req_three b) (shared c1) (pc_of b c1)) as [Hw2 Hrec];
    rewrite ?req_id; [done| |].
  { specialize (Hpc1 b). by rewrite Hb in Hpc1. }
  rewrite req_id in Hw2.
  rewrite !picks_app, !picks_cons in H4, H4'.
  replace (Bool.eqb b b) with true in H4 by (by destruct b).
  replace (Bool.eqb (negb b) b) with false in H4' by (by destruct b).
  destruct (rest_run q (sched_step res1 res2 c1 b) b
              (picks (negb b) p =? 2)%nat 3 (picks (negb b) p)) as (R1 & R2 & R3).
  - by rewrite Hs.
  - left. by rewrite Hx.
  - rewrite Ho. specialize (Hpc1 (negb b)).
    destruct (picks (negb b) p) as [|[|[|n]]]; cbn [Nat.eqb loser_at before_update] in *;
      [by left|right; by left|by left|lia].
  - split; [|split; [|done]].
    + destruct R2 as [[? _]|[_ ?]]; [lia|done].
    + destruct (picks (negb b) p =? 2)%nat eqn:E; cbn [loser_at] in R3.
      * apply Nat.eqb_eq in E. destruct R3 as [[? _]|[_ ?]]; [lia|done].
      * apply Nat.eqb_neq in E. destruct R3 as [[? _]|[[? _]|[_ ?]]]; [lia..|done].
Qed.
End OrderedPair.

(** C3 as the code has it: an event with 5 seats left and two requests for 3
    tickets each, their store operations interleaved in any order.  At no
    moment have both succeeded.  Once each has been given its four
    operations (probe, read, conditional update, record), exactly one is
    confirmed, the other is refused, and 2 seats are left.  The confirmed
    one is the request [b] that is first to make its third operation, the
    update, which comes after the operations [p]; the other is refused
    with Conflict when it had made its second operation, the read, among
    [p], before that update, and with InsufficientCapacity when its read
    came after. *)
Theorem two_requests_for_three_of_five
    (w : world) (res1 res2 : Reservation.t) (s : list bool) :
  only_event (requested_id res1) 5 w →
  Reservation.event_id res2 = Reservation.event_id res1 →
  Reservation.tickets res1 = 3 →
  Reservation.tickets res2 = 3 →
  let c := run_schedule res1 res2 s (Config w AtProbe AtProbe) in
  ¬ (succeeded (pc1 c) ∧ succeeded (pc2 c)) ∧
  ((4 ≤ picks true s)%nat → (4 ≤ picks false s)%nat →
     ((succeeded (pc1 c) ∧ refused (pc2 c)) ∨
      (refused (pc1 c) ∧ succeeded (pc2 c))) ∧
     only_event (requested_id res1) 2 (shared c) ∧
     ∃ (b : bool) (p q : list bool),
       s = (p ++ b :: q)%list ∧
       picks b p = 2%nat ∧ (picks (negb b) p ≤ 2)%nat ∧
       succeeded (pc_of b c) ∧
       pc_of (negb b) c =
         Done (Raise (if (picks (negb b) p =? 2)%nat
                      then Conflict else InsufficientCapacity))).
Proof.
  intros Hw Hsame H1 H2 c.
  assert (race_inv (requested_id res1) c) as Hinv.
  { apply race_inv_run; try done. left. simpl. repeat split; try done; by left. }
  split.
  - intros [[r1 Hr1] [r2 Hr2]].
    destruct Hinv as [(_ & Hp & _)|(_ & [(_ & [Hp|Hp])|([Hp|Hp] & _)])].
    + by eapply pending_not_done.
    + by eapply pending_not_done.
    + rewrite Hr2 in Hp. by destruct Hp.
    + by eapply pending_not_done.
    + rewrite Hr1 in Hp. by destruct Hp.
  - intros Hn1 Hn2.
    destruct (first_update s 0 0) as (b & p & q & Hs & Hb & Hnb); [lia..|].
    assert (picks b p = 2%nat ∧ (picks (negb b) p ≤ 2)%nat) as [Hb' Hnb'].
    { destruct b; cbn [negb] in *; lia. }
    destruct (ordered_run res1 res2 Hsame H1 H2 w b p q) as (Hwin & Hlose & Hw2);
      [done|done|done|rewrite <- Hs; by destruct b..|].
    rewrite <- Hs in Hwin, Hlose, Hw2. fold c in Hwin, Hlose, Hw2.
    split; [|split; [done|]].
    + assert (refused (pc_of (negb b) c)) as Href.
      { rewrite Hlose. destruct (picks (negb b) p =? 2)%nat; [by right|by left]. }
      destruct b; cbn [pc_of negb] in *; [by left|by right].
    + by exists b, p, q.
Qed.

(** ** Schemas *)

Lemma field_str_insert_ne (kw : doc) (k k' : string) (v : value) :
  k ≠ k' → field_str (<[k := v]> kw) k' = field_str kw k'.
Proof. intros. unfold field_str. by rewrite lookup_insert_ne. Qed.

Lemma field_int_insert_ne (kw : doc) (k k' : string) (v : value) :
  k ≠ k' → field_int (<[k := v]> kw) k' = field_int kw k'.
Proof. intros. unfold field_int. by rewrite lookup_insert_ne. Qed.

Lemma field_float_insert_ne (kw : doc) (k k' : string) (v : value) :
  k ≠ k' → field_float (<[k := v]> kw) k' = field_float kw k'.
Proof. intros. unfold field_float. by rewrite lookup_insert_ne. Qed.

Lemma field_datetime_insert_ne (kw : doc) (k k' : string) (v : value) :
  k ≠ k' → field_datetime (<[k := v]> kw) k' = field_datetime kw k'.
Proof. intros. unfold field_datetime. by rewrite lookup_insert_ne. Qed.

Lemma field_opt_str_insert_ne (kw : doc) (k k' : string) (v : value) :
  k ≠ k' → field_opt_str (<[k := v]> kw) k' = field_opt_str kw k'.
Proof. intros. unfold field_opt_str. by rewrite lookup_insert_ne. Qed.

Lemma field_int_insert_eq (kw : doc) (k : string) (n : Z) :
  field_int (<[k := VInt n]> kw) k = Some n.
Proof. unfold field_int. by rewrite lookup_insert_eq. Qed.

Lemma field_str_insert_eq (kw : doc) (k : string) (s : string) :
  field_str (<[k := VStr s]> kw) k = Some s.
Proof. unfold field_str. by rewrite lookup_insert_eq. Qed.

Lemma field_str_Some (kw : doc) (k s : string) :
  field_str kw k = Some s → kw !! k = Some (VStr s).
Proof. unfold field_str. repeat case_match; congruence. Qed.

Ltac rejected :=
  split; [done|]; let H := fresh in intros H; decompose [and] H; congruence.

(** Acceptance by [Event] in terms of the fields read. *)
Lemma Event_of_kwargs_Some (kw : doc) (e : Event.t) :
  Event.of_kwargs kw = Some e ↔
  field_str kw "title" = Some (Event.title e) ∧
  field_str kw "description" = Some (Event.description e) ∧
  field_str kw "genre" = Some (Event.genre e) ∧
  field_datetime kw "date" = Some (Event.date e) ∧
  field_int kw "duration_minutes" = Some (Event.duration_minutes e) ∧
  field_float kw "price_eur" = Some (Event.price_eur e) ∧
  field_int kw "seats_total" = Some (Event.seats_total e) ∧
  field_int kw "seats_available" = Some (Event.seats_available e) ∧
  field_opt_str kw "image_url" = Some (Event.image_url e) ∧
  10 ≤ Event.duration_minutes e ≤ 300 ∧
  PrimFloat.leb 0 (Event.price_eur e) = true ∧
  1 ≤ Event.seats_total e ∧
  0 ≤ Event.seats_available e.
Proof.
  unfold Event.of_kwargs.
  destruct (field_str kw "title") as [x1|]; simpl; [|rejected].
  destruct (field_str kw "description") as [x2|]; simpl; [|rejected].
  destruct (field_str kw "genre") as [x3|]; simpl; [|rejected].
  destruct (field_datetime kw "date") as [x4|]; simpl; [|rejected].
  destruct (field_int kw "duration_minutes") as [x5|]; simpl; [|rejected].
  destruct (field_float kw "price_eur") as [x6|]; simpl; [|rejected].
  destruct (field_int kw "seats_total") as [x7|]; simpl; [|rejected].
  destruct (field_int kw "seats_available") as [x8|]; simpl; [|rejected].
  destruct (field_opt_str kw "image_url") as [x9|]; simpl; [|rejected].
  match goal with |- context [if ?b then _ else _] => set (ok := b) end.
  assert (ok = true ↔ 10 ≤ x5 ≤ 300 ∧ PrimFloat.leb 0 x6 = true ∧ 1 ≤ x7 ∧ 0 ≤ x8)
    as Hok.
  { unfold ok. rewrite !andb_true_iff, !Z.leb_le. tauto. }
  destruct e; simpl. destruct ok.
  - split.
    + intros [= <- <- <- <- <- <- <- <- <-].
      destruct Hok as [Hok _]. specialize (Hok eq_refl). tauto.
    + by intros ([= <-] & [= <-] & [= <-] & [= <-] & [= <-] & [= <-] & [= <-] &
                 [= <-] & [= <-] & _).
  - split; [done|].
    intros ([= <-] & [= <-] & [= <-] & [= <-] & [= <-] & [= <-] & [= <-] &
            [= <-] & [= <-] & ? & ? & ? & ?).
    destruct Hok as [_ Hok]. discriminate Hok. tauto.
Qed.

(** C6 as the code has it: an accepted [Event] has [seats_total ≥ 1] and
    [seats_available ≥ 0], and that is all the schema asks of the two
    fields: given any accepted keyword arguments, every total of at least 1
    goes with every non-negative number of available seats. *)
Theorem Event_seats_bounded_not_related
    (kw : doc) (e : Event.t) (total available : Z) :
  Event.of_kwargs kw = Some e →
  1 ≤ total → 0 ≤ available →
  (1 ≤ Event.seats_total e ∧ 0 ≤ Event.seats_available e) ∧
  ∃ e', Event.of_kwargs
          (<["seats_total" := VInt total]>
             (<["seats_available" := VInt available]> kw)) = Some e' ∧
        Event.seats_total e' = total ∧
        Event.seats_available e' = available.
Proof.
  intros He Ht Ha.
  apply Event_of_kwargs_Some in He
    as (H1 & H2 & H3 & H4 & H5 & H6 & H7 & H8 & H9 & Hd & Hp & Hst & Hsa).
  split; [done|].
  exists (Event.mk (Event.title e) (Event.description e) (Event.genre e)
            (Event.date e) (Event.duration_minutes e) (Event.price_eur e)
            total available (Event.image_url e)).
  split; [|done]. apply Event_of_kwargs_Some. simpl.
  rewrite !field_str_insert_ne, !field_datetime_insert_ne,
    !field_float_insert_ne, !field_opt_str_insert_ne by done.
  rewrite (field_int_insert_ne _ _ "duration_minutes") by done.
  rewrite (field_int_insert_ne _ _ "duration_minutes") by done.
  rewrite field_int_insert_eq.
  rewrite (field_int_insert_ne _ "seats_total" "seats_available") by done.
  rewrite field_int_insert_eq.
  repeat split; first [done | lia].
Qed.

(** C6 as stated fails: the schema accepts an event with 1 seat in total
    and 5 seats available. *)
Lemma Event_accepts_more_available_than_total :
  ∃ e, Event.of_kwargs (sample_event (VOid sample_oid) 1 5) = Some e ∧
       Event.seats_total e < Event.seats_available e.
Proof. eexists. split; [vm_compute; reflexivity|]. simpl. lia. Qed.

Lemma Video_of_kwargs_Some (kw : doc) (v : Video.t) :
  Video.of_kwargs kw = Some v ↔
  field_str kw "month_key" = Some (Video.month_key v) ∧
  field_str kw "video_url" = Some (Video.video_url v) ∧
  field_opt_str kw "caption" = Some (Video.caption v).
Proof.
  unfold Video.of_kwargs.
  destruct (field_str kw "month_key") as [x1|]; simpl; [|rejected].
  destruct (field_str kw "video_url") as [x2|]; simpl; [|rejected].
  destruct (field_opt_str kw "caption") as [x3|]; simpl; [|rejected].
  destruct v; simpl. split.
  - by intros [= <- <- <-].
  - by intros ([= <-] & [= <-] & [= <-]).
Qed.

Lemma fmt_d_year (y : Z) : 1000 ≤ y ≤ 9999 → digits_only 4 (pretty y) = true.
Proof.
  intros Hy.
  assert (forallb (λ y, digits_only 4 (pretty y)) (seqZ 1000 9000) = true) as Hall
    by (vm_compute; reflexivity).
  rewrite forallb_forall in Hall. apply Hall.
  apply list_elem_of_In, elem_of_seqZ. lia.
Qed.

Lemma fmt_d_month (m : Z) : 1 ≤ m ≤ 12 → digits_only 2 (fmt_d 2 m) = true.
Proof.
  intros Hm.
  assert (forallb (λ m, digits_only 2 (fmt_d 2 m)) (seqZ 1 12) = true) as Hall
    by (vm_compute; reflexivity).
  rewrite forallb_forall in Hall. apply Hall.
  apply list_elem_of_In, elem_of_seqZ. lia.
Qed.

Lemma is_month_key_join (y m : string) :
  digits_only 4 y = true → digits_only 2 m = true →
  is_month_key (y ++ "-" ++ m) = true.
Proof.
  unfold digits_only. rewrite !andb_true_iff.
  intros [Hy1 Hy2] [Hm1 Hm2].
  destruct y as [|y1 [|y2 [|y3 [|y4 [|]]]]]; try done.
  destruct m as [|m1 [|m2 [|]]]; try done.
  simpl in *. unfold is_month_key; simpl.
  apply andb_true_iff in Hy2 as [H Hy2]. apply andb_true_iff in Hy2 as [H0 Hy2].
  apply andb_true_iff in Hy2 as [H1 Hy2]. apply andb_true_iff in Hy2 as [H2 _].
  apply andb_true_iff in Hm2 as [H3 Hm2]. apply andb_true_iff in Hm2 as [H4 _].
  by rewrite H, H0, H1, H2, H3, H4.
Qed.

Lemma strftime_Y_m_form (t : datetime) :
  1000 ≤ year t ≤ 9999 → 1 ≤ month t ≤ 12 →
  is_month_key (strftime_Y_m t) = true.
Proof.
  intros Hy Hm. unfold strftime_Y_m.
  apply is_month_key_join; [by apply fmt_d_year|by apply fmt_d_month].
Qed.

(** C9 as the code has it: [month_key] is a required string and nothing
    more is checked of it -- an accepted [Video] stays accepted with any
    other string as its [month_key]; the "YYYY-MM" form is what the code
    itself writes, the [strftime("%Y-%m")] of a date. *)
Theorem Video_month_key_any_string
    (kw : doc) (v : Video.t) (s : string) (t : datetime) :
  Video.of_kwargs kw = Some v →
  1000 ≤ year t ≤ 9999 → 1 ≤ month t ≤ 12 →
  kw !! "month_key" = Some (VStr (Video.month_key v)) ∧
  Video.of_kwargs (<["month_key" := VStr s]> kw)
    = Some (Video.mk s (Video.video_url v) (Video.caption v)) ∧
  is_month_key (strftime_Y_m t) = true.
Proof.
  intros Hv Hy Hm. apply Video_of_kwargs_Some in Hv as (H1 & H2 & H3).
  split; [by apply field_str_Some|]. split; [|by apply strftime_Y_m_form].
  apply Video_of_kwargs_Some. simpl.
  rewrite field_str_insert_eq, field_str_insert_ne, field_opt_str_insert_ne by done.
  done.
Qed.

(** C9 as stated fails: the schema accepts a [month_key] that is not of
    the "YYYY-MM" form. *)
Lemma Video_accepts_any_month_key :
  ∃ v, Video.of_kwargs
         (<["month_key" := VStr "next spring"]> sample_video) = Some v ∧
       Video.month_key v = "next spring" ∧
       is_month_key (Video.month_key v) = false.
Proof. eexists. split; [vm_compute; reflexivity|]. by split. Qed.

(** ** Listing events *)

Lemma mapM_construct {A B} (f : A → option B) (l : list A) (w : world) :
  mapM (λ x, construct (f x)) l w =
  (match mapM f l with Some ys => Return ys | None => Raise ValidationError end, w).
Proof.
  induction l as [|x l IH]; [done|].
  cbn [mapM]. unfold_M. unfold mbind, option_bind.
  destruct (f x) as [y|]; [|done]. cbn [construct]. unfold_M.
  rewrite IH. by destruct (mapM f l).
Qed.

Lemma find_all (c : list doc) : find [] c = c.
Proof. unfold find. induction c as [|d c IH]; [done|]. simpl. by rewrite IH. Qed.

(** [Event] reads its nine fields and nothing else. *)
Lemma Event_of_kwargs_ext (kw1 kw2 : doc) :
  (∀ k, k ∈ Event_fields → kw1 !! k = kw2 !! k) →
  Event.of_kwargs kw1 = Event.of_kwargs kw2.
Proof.
  intros H. unfold Event.of_kwargs, field_str, field_int, field_float,
    field_datetime, field_opt_str.
  rewrite !H by (unfold Event_fields; set_solver). done.
Qed.

Lemma Event_of_kwargs_id (d : doc) (x : value) :
  Event.of_kwargs (<["id" := x]> d) = Event.of_kwargs (delete "_id" d).
Proof.
  apply Event_of_kwargs_ext. intros k Hk.
  assert (k ≠ "id" ∧ k ≠ "_id") as [? ?].
  { unfold Event_fields in Hk. set_solver. }
  rewrite lookup_insert_ne by done. by rewrite lookup_delete_ne.
Qed.

Lemma Event_model_dump_dom (e : Event.t) : dom (Event.model_dump e) = Event_fields.
Proof.
  unfold Event.model_dump, Event_fields.
  rewrite !dom_insert_L, dom_empty_L. set_solver.
Qed.

Lemma insert_by_related (R : doc → doc → Prop) (le : doc → doc → bool)
    (x x' : doc) (l l' : list doc) :
  (∀ a a' b b', R a a' → R b b' → le a b = le a' b') →
  R x x' → Forall2 R l l' →
  Forall2 R (insert_by le x l) (insert_by le x' l').
Proof.
  intros Hle Hx H. induction H as [|y y' l l' Hy Hl IH]; simpl.
  - by repeat constructor.
  - rewrite (Hle x x' y y') by done.
    destruct (le x' y'); by repeat constructor.
Qed.

Lemma sort_by_related (R : doc → doc → Prop) (le : doc → doc → bool)
    (l l' : list doc) :
  (∀ a a' b b', R a a' → R b b' → le a b = le a' b') →
  Forall2 R l l' → Forall2 R (sort_by le l) (sort_by le l').
Proof.
  intros Hle H. induction H as [|x x' l l' Hx Hl IH]; simpl; [constructor|].
  by apply insert_by_related.
Qed.

Lemma same_but_id_lookup (d1 d2 : doc) (k : string) :
  same_but_id d1 d2 → k ≠ "_id" → d1 !! k = d2 !! k.
Proof.
  unfold same_but_id. intros H Hk.
  rewrite <- (lookup_delete_ne d1 "_id" k), <- (lookup_delete_ne d2 "_id" k) by done.
  by rewrite H.
Qed.

Lemma list_events_eq (float_repr : float → string) (w : world) :
  list_events float_repr w =
  (match mapM (λ d, Event.of_kwargs (delete "_id" d))
           (sort_docs "date" 1 (collection (collection_name Event) w)) with
   | Some evs => Return evs
   | None => Raise ValidationError
   end, w).
Proof.
  unfold list_events. unfold_M. rewrite find_all.
  rewrite (mapM_construct (λ d, Event.of_kwargs _)).
  erewrite mapM_ext; [done|]. intros d. apply Event_of_kwargs_id.
Qed.

(** C10: the items that [GET /api/events] returns carry the nine fields of
    the [Event] model and neither ["id"] nor ["_id"], and the response is
    the same for any store whose Event documents differ from the present
    ones only in their [_id]: no identifier can be read from it. *)
Theorem list_events_gives_no_id
    (float_repr : float → string) (w w' : world) (evs : list Event.t) :
  list_events float_repr w = (Return evs, w') →
  Forall (λ e, dom (Event.model_dump e) = Event_fields ∧
               Event.model_dump e !! "id" = None ∧
               Event.model_dump e !! "_id" = None) evs ∧
  ∀ w2 : world,
    Forall2 same_but_id (collection (collection_name Event) w)
                        (collection (collection_name Event) w2) →
    (list_events float_repr w2).1 = Return evs.
Proof.
  intros Hl. split.
  - apply Forall_forall. intros e _.
    pose proof (Event_model_dump_dom e) as Hdom. split; [done|].
    split; apply not_elem_of_dom; rewrite Hdom; unfold Event_fields; set_solver.
  - intros w2 Hsame. rewrite list_events_eq in Hl. rewrite list_events_eq.
    cbn [fst].
    assert (mapM (λ d, Event.of_kwargs (delete "_id" d))
              (sort_docs "date" 1 (collection (collection_name Event) w2))
            = mapM (λ d, Event.of_kwargs (delete "_id" d))
                (sort_docs "date" 1 (collection (collection_name Event) w))) as ->.
    { symmetry. apply Forall2_mapM_ext.
      eapply Forall2_impl.
      - apply (sort_by_related same_but_id); [|exact Hsame].
        intros a a' b b' Ha Hb. cbv beta.
        by rewrite (same_but_id_lookup a a'), (same_but_id_lookup b b').
      - intros d d' Hd. cbv beta. by rewrite Hd. }
    destruct (mapM _ _); by inversion Hl.
Qed.

(** ** The current video *)





Lemma truthy_nonempty (d : doc) (k : string) :
  is_Some (d !! k) → truthy (Some d) = true.
Proof.
  intros [v Hv]. unfold truthy. apply negb_true_iff, bool_decide_eq_false.
  intros ->. by rewrite lookup_empty in Hv.
Qed.

Lemma matches_month_key (key : string) (d : doc) :
  matches [("month_key", Eq (VStr key))] d = true ↔
  d !! "month_key" = Some (VStr key).
Proof.
  unfold matches. cbn [forallb fst snd]. rewrite andb_true_r.
  by apply cond_eq_id.
Qed.

Lemma current_video_found (w : world) (d : doc) :
  find_one [("month_key", Eq (VStr (strftime_Y_m (clock w (ticks w)))))]
    (collection (collection_name Video) w) = Some d →
  current_video w = (video_response d, tick w).
Proof.
  intros Hf. unfold current_video. unfold_M. unfold utcnow.
  cbn [db clock ticks next_oid]. fold (tick w). rewrite !collection_tick.
  rewrite Hf.
  assert (truthy (Some d) = true) as Ht.
  { apply find_one_Some in Hf as (_ & _ & _ & _ & Hd).
    apply matches_month_key in Hd. by eapply truthy_nonempty. }
  rewrite Ht. cbn [negb]. rewrite Ht. cbn [negb default].
  unfold video_response, construct. by destruct (Video.of_kwargs _).
Qed.

Lemma current_video_fallback (w : world) :
  find_one [("month_key", Eq (VStr (strftime_Y_m (clock w (ticks w)))))]
    (collection (collection_name Video) w) = None →
  current_video w =
  (match find_one_sorted [] "created_at" (-1) (collection (collection_name Video) w) with
   | Some d => if truthy (Some d) then video_response d else Return None
   | None => Return None
   end, tick w).
Proof.
  intros Hf. unfold current_video. unfold_M. unfold utcnow.
  cbn [db clock ticks next_oid]. fold (tick w). rewrite !collection_tick.
  rewrite Hf. cbn [truthy negb]. rewrite collection_tick.
  destruct (find_one_sorted _ _ _ _) as [d|]; [|reflexivity].
  cbn [truthy]. destruct (negb (bool_decide (d = ∅))); [|reflexivity].
  cbn [negb default].
  unfold video_response, construct. by destruct (Video.of_kwargs _).
Qed.





(** ** Seeding *)

Lemma seed_already (validate_email : string → option string) (w : world) :
  collection (collection_name Event) w ≠ [] →
  seed validate_email w = (Return already_seeded, w).
Proof.
  intros Hne. unfold seed. unfold_M. unfold estimated_document_count.
  destruct (collection (collection_name Event) w) as [|d c]; [done|].
  assert ((0 <? Z.of_nat (length (d :: c))) = true) as ->; [|done].
  apply Z.ltb_lt. simpl. lia.
Qed.

Lemma owners_accepted :
  ∃ o1 o2, mapM Ownerprofile.of_kwargs owners_kwargs = Some [o1; o2].
Proof. do 2 eexists. vm_compute. reflexivity. Qed.

Lemma demo_events_accepted (base_date : datetime) :
  ∃ e1 e2 e3,
    mapM Event.of_kwargs (demo_events_kwargs base_date) = Some [e1; e2; e3] ∧
    Forall (λ e, Event.seats_available e = Event.seats_total e) [e1; e2; e3].
Proof.
  do 3 eexists. split.
  - vm_compute. reflexivity.
  - repeat constructor.
Qed.

Ltac run_M :=
  repeat first [ progress cbv beta iota
               | progress unfold_M
               | rewrite create_document_eq ].

Lemma seed_fresh (validate_email : string → option string) (w : world) :
  is_Some (validate_email "kontakt@kabarett-salon.at") →
  collection (collection_name Event) w = [] →
  ∃ theater owner1 owner2 event1 event2 event3 video : doc,
    seed validate_email w =
    (Return seeded,
     after_create (collection_name Video) video (tick
       (after_create (collection_name Event) event3
          (after_create (collection_name Event) event2
             (after_create (collection_name Event) event1 (tick
                (after_create (collection_name Ownerprofile) owner2
                   (after_create (collection_name Ownerprofile) owner1
                      (after_create (collection_name Theater) theater w))))))))).
Proof.
  intros [addr Hmail] Hnil. unfold seed. unfold_M. unfold estimated_document_count.
  rewrite Hnil. change (0 <? Z.of_nat (length [])) with false. cbv beta iota.
  destruct (Theater.of_kwargs validate_email theater_kwargs) as [theater|] eqn:Et.
  2: { exfalso. unfold Theater.of_kwargs in Et.
       change (field_str theater_kwargs "email")
         with (Some "kontakt@kabarett-salon.at") in Et.
       cbn [mbind option_bind] in Et. rewrite Hmail in Et. discriminate Et. }
  cbn [construct]. run_M.
  rewrite (mapM_construct Ownerprofile.of_kwargs).
  destruct owners_accepted as (o1 & o2 & ->).
  cbn [mapM]. run_M.
  unfold utcnow at 1. run_M.
  rewrite (mapM_construct Event.of_kwargs).
  match goal with
  | |- context [demo_events_kwargs ?b] =>
      destruct (demo_events_accepted b) as (e1 & e2 & e3 & -> & _)
  end.
  cbn [mapM]. run_M.
  unfold utcnow at 1. run_M.
  match goal with
  | |- context [construct (Video.of_kwargs ?kw)] =>
      destruct (Video.of_kwargs kw) as [video|] eqn:Ev;
        [|exfalso; vm_compute in Ev; discriminate Ev]
  end.
  cbn [construct]. run_M.
  by repeat eexists.
Qed.

(** C8: seeding is idempotent.  With an Event document in the store the
    call writes nothing and reports "Already seeded"; with none it adds one
    Theater, two Ownerprofile, three Event and one Video document and
    nothing else; a second call therefore finds the store seeded, and the
    three demo events stay three. *)
Theorem seed_idempotent (validate_email : string → option string) (w : world) :
  is_Some (validate_email "kontakt@kabarett-salon.at") →
  let w1 := (seed validate_email w).2 in
  (collection (collection_name Event) w ≠ [] →
     seed validate_email w = (Return already_seeded, w)) ∧
  (collection (collection_name Event) w = [] →
     (seed validate_email w).1 = Return seeded ∧
     ∃ theater owner1 owner2 event1 event2 event3 video : doc,
       collection (collection_name Theater) w1 =
         (collection (collection_name Theater) w ++ [theater])%list ∧
       collection (collection_name Ownerprofile) w1 =
         (collection (collection_name Ownerprofile) w ++ [owner1; owner2])%list ∧
       collection (collection_name Event) w1 = [event1; event2; event3] ∧
       collection (collection_name Video) w1 =
         (collection (collection_name Video) w ++ [video])%list ∧
       ∀ name : string,
         name ≠ collection_name Theater → name ≠ collection_name Ownerprofile →
         name ≠ collection_name Event → name ≠ collection_name Video →
         collection name w1 = collection name w) ∧
  seed validate_email w1 = (Return already_seeded, w1) ∧
  (collection (collection_name Event) w = [] →
     length (collection (collection_name Event) (seed validate_email w1).2) = 3%nat).
Proof.
  intros Hmail w1.
  assert (collection (collection_name Event) w = [] →
          (seed validate_email w).1 = Return seeded ∧
          ∃ theater owner1 owner2 event1 event2 event3 video : doc,
            collection (collection_name Theater) w1 =
              (collection (collection_name Theater) w ++ [theater])%list ∧
            collection (collection_name Ownerprofile) w1 =
              (collection (collection_name Ownerprofile) w ++ [owner1; owner2])%list ∧
            collection (collection_name Event) w1 = [event1; event2; event3] ∧
            collection (collection_name Video) w1 =
              (collection (collection_name Video) w ++ [video])%list ∧
            ∀ name : string,
              name ≠ collection_name Theater → name ≠ collection_name Ownerprofile →
              name ≠ collection_name Event → name ≠ collection_name Video →
              collection name w1 = collection name w) as Hfresh.
  { intros Hnil.
    destruct (seed_fresh validate_email w Hmail Hnil)
      as (t & o1 & o2 & e1 & e2 & e3 & v & Hs).
    unfold w1. rewrite Hs. cbn [fst snd]. split; [done|].
    do 7 eexists.
    repeat rewrite ?collection_after_create_eq, ?collection_tick,
      ?collection_after_create_ne by done.
    rewrite Hnil, <- !app_assoc. cbn [app].
    split; [done|]. split; [done|]. split; [done|]. split; [done|].
    intros name ? ? ? ?.
    repeat rewrite ?collection_tick, ?collection_after_create_ne by done.
    done. }
  assert (seed validate_email w1 = (Return already_seeded, w1)) as Hagain.
  { apply seed_already.
    destruct (collection (collection_name Event) w) as [|d c] eqn:Hc.
    - destruct (Hfresh eq_refl) as (_ & ? & ? & ? & ? & ? & ? & ? & _ & _ & -> & _).
      done.
    - unfold w1. rewrite seed_already by (by rewrite Hc).
      cbn [snd]. by rewrite Hc. }
  split; [apply seed_already|]. split; [done|]. split; [done|].
  intros Hnil. rewrite Hagain. cbn [snd].
  by destruct (Hfresh Hnil) as (_ & ? & ? & ? & ? & ? & ? & ? & _ & _ & -> & _).
Qed.

(** ** The properties on sample data *)

Lemma sample_only_event (n : Z) :
  only_event (requested_id (sample_request 3)) n (sample_world n).
Proof.
  exists [], (sample_event (VOid sample_oid) 60 n), [].
  repeat split; try constructor.
Qed.

(** C1: the event with four seats left is stored under the text of its
    identifier, a text that is also a valid ObjectId, and the request asks
    for the four seats under that text.  The handler looks up the ObjectId
    only (the text is tried when [ObjectId()] raises, and the result of the
    first [find_one] is not used), finds nothing and answers 404; the
    store is left as it was. *)
Lemma remaining_seats_under_text_id_not_found :
  let event := sample_event (VStr sample_oid) 60 4 in
  let w := events_world [event] in
  event ∈ collection (collection_name Event) w ∧
  event !! "_id" = Some (VStr (Reservation.event_id (sample_request 4))) ∧
  event !! "seats_available" = Some (VInt (Reservation.tickets (sample_request 4))) ∧
  create_reservation (sample_request 4) w = (Raise NotFound, w).
Proof.
  cbv zeta. split; [apply list_elem_of_here|].
  split; [reflexivity|]. split; [reflexivity|].
  rewrite create_reservation_eq.
  assert (event_of_request (sample_request 4)
            (events_world [sample_event (VStr sample_oid) 60 4]) = None) as ->
    by (vm_compute; reflexivity).
  reflexivity.
Qed.


(** Three of five seats reserved: the invariant holds before and after. *)
Lemma seats_invariant_preserved_witness :
  events_inv (sample_world 5) ∧
  events_inv (create_reservation (sample_request 3) (sample_world 5)).2.
Proof.
  assert (events_inv (sample_world 5)) as Hinv.
  { constructor; [|constructor]. exists 5, 60. repeat split; lia. }
  split; [exact Hinv|].
  apply (seats_invariant_preserved (sample_request 3) (sample_world 5));
    [simpl; lia|exact Hinv].
Defined.

(** The two requests taking turns, operation by operation. *)
Lemma two_requests_interleaved_witness :
  let c := run_schedule (sample_request 3) (sample_request 3)
             [true; false; true; false; true; false; true; false]
             (Config (sample_world 5) AtProbe AtProbe) in
  ((succeeded (pc1 c) ∧ refused (pc2 c)) ∨ (refused (pc1 c) ∧ succeeded (pc2 c))) ∧
  only_event (requested_id (sample_request 3)) 2 (shared c) ∧
  ∃ (b : bool) (p q : list bool),
    [true; false; true; false; true; false; true; false] = (p ++ b :: q)%list ∧
    picks b p = 2%nat ∧ (picks (negb b) p ≤ 2)%nat ∧
    succeeded (pc_of b c) ∧
    pc_of (negb b) c =
      Done (Raise (if (picks (negb b) p =? 2)%nat
                   then Conflict else InsufficientCapacity)).
Proof.
  apply (two_requests_for_three_of_five (sample_world 5) (sample_request 3)
           (sample_request 3));
    [apply sample_only_event|reflexivity|reflexivity|reflexivity| |];
    unfold picks; simpl; lia.
Defined.

(** C3 as stated fails: the second request probes the store, the first is
    then served in full, and the second, reading 2 seats, is refused with
    400 "Not enough seats available", not with 409. *)
Lemma second_request_may_get_400_not_409 :
  let c := run_schedule (sample_request 3) (sample_request 3)
             [false; true; true; true; true; false; false; false]
             (Config (sample_world 5) AtProbe AtProbe) in
  pc1 c = Done (Return (confirmed (generated_oid 0))) ∧
  pc2 c = Done (Raise InsufficientCapacity) ∧
  pc2 c ≠ Done (Raise Conflict).
Proof.
  cbv zeta. split; [vm_compute; reflexivity|].
  assert (pc2 (run_schedule (sample_request 3) (sample_request 3)
             [false; true; true; true; true; false; false; false]
             (Config (sample_world 5) AtProbe AtProbe))
          = Done (Raise InsufficientCapacity)) as -> by (vm_compute; reflexivity).
  split; [reflexivity|discriminate].
Qed.

(** A request that read 5 seats and reaches its update when only 2 are
    left. *)
Lemma capacity_failures_distinguished_witness :
  step (sample_request 3) AtLookup (sample_world 5)
    = (AtUpdate (sample_event (VOid sample_oid) 60 5), sample_world 5) ∧
  step (sample_request 3) (AtUpdate (sample_event (VOid sample_oid) 60 5))
       (sample_world 2)
    = (Done (Raise Conflict), tick (sample_world 2)).
Proof.
  destruct (capacity_failures_distinguished (sample_request 3) (sample_world 5)
              (sample_event (VOid sample_oid) 60 5) 5)
    as [_ H]; [reflexivity|reflexivity|].
  destruct H as [H1 H2]; [simpl; lia|].
  split; [exact H1|].
  apply H2. constructor; [vm_compute; reflexivity|constructor].
Defined.

(** An [event_id] that no Event document has. *)
Lemma reserve_unknown_event_witness :
  create_reservation
    (Reservation.mk "no-such-event" "Lena Weiss" "lena@example.com" 2 None)
    (sample_world 5)
  = (Raise NotFound, sample_world 5).
Proof.
  apply reserve_unknown_event.
  constructor; [|constructor].
  intros [H|(oid & H & _)]; [vm_compute in H|vm_compute in H]; discriminate H.
Defined.

(** One seat in total, five available. *)
Lemma Event_seats_bounded_not_related_witness :
  ∃ e', Event.of_kwargs
          (<["seats_total" := VInt 1]>
             (<["seats_available" := VInt 5]> (sample_event (VOid sample_oid) 60 60)))
        = Some e' ∧
        Event.seats_total e' = 1 ∧ Event.seats_available e' = 5.
Proof.
  eapply (Event_seats_bounded_not_related (sample_event (VOid sample_oid) 60 60));
    [vm_compute; reflexivity|lia|lia].
Defined.


(** Seeding the empty store twice. *)
Lemma seed_idempotent_witness :
  seed accept_email (seed accept_email empty_world).2
    = (Return already_seeded, (seed accept_email empty_world).2) ∧
  length (collection (collection_name Event)
            (seed accept_email (seed accept_email empty_world).2).2) = 3%nat.
Proof.
  destruct (seed_idempotent accept_email empty_world) as (_ & _ & H1 & H2);
    [by eexists|].
  split; [exact H1|]. by apply H2.
Defined.

(** A month key that names no month. *)
Lemma Video_month_key_any_string_witness :
  Video.of_kwargs (<["month_key" := VStr "next spring"]> sample_video)
    = Some (Video.mk "next spring" "https://example.com/october.mp4" None) ∧
  is_month_key (strftime_Y_m sample_time) = true.
Proof.
  eapply proj2, (Video_month_key_any_string sample_video
                   (Video.mk "2026-10" "https://example.com/october.mp4" None)
                   "next spring" sample_time);
    [vm_compute; reflexivity|simpl; lia|simpl; lia].
Defined.

(** The listing of the seeded store. *)
Lemma list_events_gives_no_id_witness :
  ∃ evs, (list_events no_repr (seed accept_email empty_world).2).1 = Return evs ∧
         length evs = 3%nat ∧
         Forall (λ e, Event.model_dump e !! "id" = None ∧
                      Event.model_dump e !! "_id" = None) evs.
Proof.
  eexists. split; [vm_compute; reflexivity|]. split; [reflexivity|].
  eapply Forall_impl.
  - eapply proj1, (list_events_gives_no_id no_repr (seed accept_email empty_world).2
                     (seed accept_email empty_world).2).
    vm_compute. reflexivity.
  - intros e (_ & ? & ?). by split.
Defined.

(** ** More on reservations *)

Lemma int64_range (n : Z) : -10 ≤ n ≤ int64_max → int64_ok n = true.
Proof.
  unfold int64_ok, int64_max. intros. apply andb_true_iff.
  split; apply Z.leb_le; lia.
Qed.

(** X1: a request for [t] tickets (1 to 10) on an event with [a ≥ t] seats
    left is confirmed with the generated identifier; the event document
    keeps its place and its fields but [seats_available], now [a - t], and
    [updated_at], the clock reading to the millisecond; one Reservation
    document is appended; no other collection changes. *)
Theorem reserve_takes_tickets
    (w : world) (res : Reservation.t) (ev : doc) (a : Z) :
  event_of_request res w = Some ev →
  ev !! "seats_available" = Some (VInt a) →
  1 ≤ Reservation.tickets res ≤ 10 →
  Reservation.tickets res ≤ a ≤ int64_max →
  let ev' := <["updated_at" := VDate (bson_datetime (clock w (ticks w)))]>
               (<["seats_available" := VInt (a - Reservation.tickets res)]> ev) in
  let rid := generated_oid (next_oid w) in
  ∃ w' pre post,
    create_reservation res w = (Return (confirmed rid), w') ∧
    collection (collection_name Event) w = (pre ++ ev :: post)%list ∧
    collection (collection_name Event) w' = (pre ++ ev' :: post)%list ∧
    event_of_request res w' = Some ev' ∧
    collection (collection_name Reservation) w' =
      (collection (collection_name Reservation) w ++
       [stored rid (clock w (S (ticks w))) (Reservation.model_dump res)])%list ∧
    ∀ name, name ≠ collection_name Event → name ≠ collection_name Reservation →
            collection name w' = collection name w.
Proof.
  intros Hev Hseats Ht Ha ev' rid.
  destruct (event_of_request_split _ _ _ Hev) as (pre & post & Hc & Hpre & Hid).
  assert (find_one_and_update
            (decrement_filter (requested_id res) (Reservation.tickets res))
            (decrement_update (Reservation.tickets res) (clock w (ticks w)))
            (collection (collection_name Event) w)
          = Some ((pre ++ ev' :: post)%list, Some ev')) as Hupd.
  { rewrite Hc. apply decrement_hit; try done; try lia;
      apply int64_range; unfold int64_max in *; lia. }
  assert (ev' !! "_id" = Some (requested_id res)) as Hid'.
  { unfold ev'. by rewrite !lookup_insert_ne. }
  eexists _, pre, post. split.
  { rewrite create_reservation_eq, Hev. unfold dict_get. rewrite Hseats.
    cbn [py_int].
    destruct (Z.ltb_spec a (Reservation.tickets res)); [lia|].
    rewrite Hid, Hupd. reflexivity. }
  split; [done|].
  assert (collection (collection_name Event)
            (after_create (collection_name Reservation) (Reservation.model_dump res)
               (with_collection (collection_name Event) (pre ++ ev' :: post)%list
                  (tick w))) = (pre ++ ev' :: post)%list) as Hc'.
  { rewrite collection_after_create_ne by done. apply collection_with_eq. }
  split; [done|]. split; [by eapply event_of_request_found|]. split.
  - rewrite collection_after_create_eq. by rewrite collection_with_ne.
  - intros name H1 H2. rewrite collection_after_create_ne by done.
    by rewrite collection_with_ne.
Qed.

(** The conditional decrement keeps the number of documents and the
    [_id] of each. *)
Lemma find_one_and_update_ids (f : filter) (t : Z) (now : datetime)
    (c c' : list doc) (r : option doc) :
  find_one_and_update f (decrement_update t now) c = Some (c', r) →
  Forall2 (λ d d', d' !! "_id" = d !! "_id") c c'.
Proof.
  intros Hf. apply find_one_and_update_cases in Hf
    as [(_ & -> & _)|(pre & d & post & d' & _ & -> & -> & _ & _ & Hu)].
  - by apply Forall_Forall2_diag, Forall_forall.
  - apply Forall2_app; [by apply Forall_Forall2_diag, Forall_forall|].
    constructor; [|by apply Forall_Forall2_diag, Forall_forall].
    apply apply_decrement_inv in Hu as [_ Hu]. by apply Hu.
Qed.

Ltac refusal :=
  cbn [fst snd];
  split; [split; [done|by intros [?|?]]|split; [|done]];
  by apply Forall_Forall2_diag, Forall_forall.

(** X2: what one call of [create_reservation] does to the store.  A
    confirmation goes with exactly one appended Reservation document,
    which carries the returned identifier.  The refusals that the handler
    decides before the update (404, 400) and a failed conversion of the
    seats leave the whole world as it was; the refusal after the update
    found nothing to change (409) and a refused write have read the clock
    and done nothing else.  Whatever the outcome, the Event collection
    keeps its documents' number and identifiers, and no collection but
    Event and Reservation is written. *)
Theorem create_reservation_effects (res : Reservation.t) (w : world) :
  let r := (create_reservation res w).1 in
  let w' := (create_reservation res w).2 in
  match r with
  | Return x =>
      x = confirmed (generated_oid (next_oid w)) ∧
      collection (collection_name Reservation) w' =
        (collection (collection_name Reservation) w ++
         [stored (reservation_id x) (clock w (S (ticks w)))
            (Reservation.model_dump res)])%list
  | Raise e =>
      (e = NotFound ∨ e = InsufficientCapacity ∨ e = PyError → w' = w) ∧
      (e = Conflict ∨ e = OperationFailure → w' = tick w)
  end ∧
  Forall2 (λ d d', d' !! "_id" = d !! "_id")
    (collection (collection_name Event) w)
    (collection (collection_name Event) w') ∧
  ∀ name, name ≠ collection_name Event → name ≠ collection_name Reservation →
          collection name w' = collection name w.
Proof.
  cbv zeta. rewrite create_reservation_eq.
  assert (∀ c : list doc, Forall2 (λ d d' : doc, d' !! "_id" = d !! "_id") c c)
    as Hrefl by (intros c; by apply Forall_Forall2_diag, Forall_forall).
  destruct (event_of_request res w) as [event|] eqn:Hev; [|refusal].
  apply event_of_request_split in Hev as (? & ? & _ & _ & Hid).
  destruct (py_int _) as [seats|]; [|refusal].
  destruct (seats <? _); [refusal|].
  rewrite Hid.
  destruct (find_one_and_update _ _ _) as [[c' [d'|]]|] eqn:Hf; cbn [fst snd].
  - split; [split; [done|]|split].
    + rewrite collection_after_create_eq. by rewrite collection_with_ne.
    + rewrite collection_after_create_ne by done. rewrite collection_with_eq.
      by eapply find_one_and_update_ids.
    + intros name ? ?. rewrite collection_after_create_ne by done.
      by rewrite collection_with_ne.
  - split; [split; [by intros [?|[?|?]]|done]|split]; done.
  - split; [split; [by intros [?|[?|?]]|done]|split]; done.
Qed.

(** X3: how the handler reads [seats_available] off the event it found.
    A document without the field counts as having 0 seats, so every
    request for at least one ticket is refused with 400; a field that
    [int()] cannot convert (None, a date, an ObjectId, text that is no
    numeral) makes the handler raise, an unhandled error.  Neither writes
    anything. *)
Theorem reserve_event_with_odd_seats
    (res : Reservation.t) (w : world) (event : doc) :
  event_of_request res w = Some event →
  1 ≤ Reservation.tickets res →
  (event !! "seats_available" = None →
     create_reservation res w = (Raise InsufficientCapacity, w)) ∧
  (∀ v, event !! "seats_available" = Some v → py_int v = None →
        create_reservation res w = (Raise PyError, w)).
Proof.
  intros Hev Ht. split.
  - intros Hnone. rewrite create_reservation_eq, Hev. unfold dict_get.
    rewrite Hnone. cbn [py_int].
    destruct (Z.ltb_spec 0 (Reservation.tickets res)); [done|lia].
  - intros v Hv Hint. rewrite create_reservation_eq, Hev. unfold dict_get.
    by rewrite Hv, Hint.
Qed.

(** X4: seats kept as text.  [int()] reads the numeral, so the check of
    line 92 passes when it is large enough; the filter's [$gte] compares a
    number with text and matches nothing; the request is refused with 409
    "Seats no longer available" although no other request took a seat, and
    the store is left as it was. *)
Theorem reserve_event_with_text_seats
    (res : Reservation.t) (w : world) (pre post : list doc) (event : doc)
    (s : string) (n : Z) :
  collection (collection_name Event) w = (pre ++ event :: post)%list →
  Forall (λ d, d !! "_id" ≠ Some (requested_id res)) (pre ++ post) →
  event !! "_id" = Some (requested_id res) →
  event !! "seats_available" = Some (VStr s) →
  int_of_str s = Some n →
  Reservation.tickets res ≤ n →
  create_reservation res w = (Raise Conflict, tick w) ∧ db (tick w) = db w.
Proof.
  intros Hc Hothers Hid Hs Hn Hle. split; [|done].
  apply Forall_app in Hothers as [Hpre Hpost].
  rewrite create_reservation_eq.
  rewrite (event_of_request_found res w pre post event) by done.
  unfold dict_get. rewrite Hs. cbn [py_int]. rewrite Hn.
  destruct (Z.ltb_spec n (Reservation.tickets res)); [lia|].
  rewrite Hid, find_one_and_update_miss; [done|].
  rewrite Hc. apply Forall_app. split; [|constructor].
  - apply decrement_skips; [apply requested_id_is_id|done].
  - apply not_true_is_false. rewrite matches_decrement by apply requested_id_is_id.
    intros [_ Hm]. by rewrite Hs in Hm.
  - apply decrement_skips; [apply requested_id_is_id|done].
Qed.

(** X5: an event whose [_id] is a text of 24 hexadecimal digits cannot be
    reserved.  Such an [event_id] is a valid ObjectId, so the lookup asks
    for the ObjectId only (the text is tried only when [ObjectId()]
    raises); unless a document has that ObjectId, the request is refused
    with 404 and nothing is written. *)
Theorem reserve_event_with_hex_text_id
    (res : Reservation.t) (w : world) (event : doc) (oid : string) :
  event ∈ collection (collection_name Event) w →
  event !! "_id" = Some (VStr (Reservation.event_id res)) →
  ObjectId (Reservation.event_id res) = Some oid →
  Forall (λ d, d !! "_id" ≠ Some (VOid oid)) (collection (collection_name Event) w) →
  create_reservation res w = (Raise NotFound, w).
Proof.
  intros _ _ Hoid Hnone. rewrite create_reservation_eq.
  assert (event_of_request res w = None) as ->; [|done].
  apply find_one_None. eapply Forall_impl; [exact Hnone|].
  intros d Hd. apply not_true_is_false. intros Hm.
  apply matches_id in Hm; [|apply requested_id_is_id].
  unfold requested_id in Hm. by rewrite Hoid in Hm.
Qed.

(** ** Identifiers *)

Lemma hex_char_lower (n : N) : (n < 16)%N → is_lower_hex (hex_char n).
Proof.
  intros Hn.
  assert (Forall (λ n, is_lower_hex (hex_char n))
            (N.of_nat <$> seq 0 16)) as Hall.
  { repeat constructor. }
  rewrite Forall_forall in Hall. apply Hall.
  apply list_elem_of_fmap. exists (N.to_nat n). split; [lia|].
  apply elem_of_seq. lia.
Qed.

Lemma hex_go_spec (k : nat) (n : N) (acc : string) :
  Forall is_lower_hex (list_ascii_of_string acc) →
  Forall is_lower_hex (list_ascii_of_string (hex_go k n acc)) ∧
  String.length (hex_go k n acc) = (k + String.length acc)%nat.
Proof.
  revert n acc; induction k as [|k IH]; intros n acc Hacc; [done|].
  simpl. destruct (IH (n / 16)%N (String (hex_char (n mod 16)%N) acc)) as [H1 H2].
  - simpl. constructor; [|done]. apply hex_char_lower.
    by apply N.mod_upper_bound.
  - split; [done|]. rewrite H2. simpl. lia.
Qed.

Lemma fromhex_lower (l : list ascii) (k : nat) :
  length l = (2 * k)%nat → Forall is_lower_hex l → fromhex l = Some l.
Proof.
  revert l; induction k as [|k IH]; intros l Hlen Hl.
  - by destruct l.
  - destruct l as [|c [|c2 l]]; simpl in Hlen; try lia.
    inversion Hl as [|? ? [Hc Hsp] Hl']; subst.
    inversion Hl' as [|? ? [Hc2 _] Hl'']; subst.
    cbn [fromhex]. rewrite Hsp, Hc, Hc2, (IH l); [done|lia|done].
Qed.

Lemma length_list_ascii (s : string) :
  length (list_ascii_of_string s) = String.length s.
Proof. induction s as [|c s IH]; simpl; [done|]. by rewrite IH. Qed.

Lemma ObjectId_generated (n : N) :
  ObjectId (generated_oid n) = Some (generated_oid n).
Proof.
  unfold ObjectId, generated_oid.
  destruct (hex_go_spec 24 n "") as [Hhex Hlen]; [constructor|].
  rewrite Hlen. cbn [String.length Nat.add Nat.eqb].
  rewrite (fromhex_lower _ 12); [|by rewrite length_list_ascii, Hlen|done].
  unfold fmap, option_fmap, option_map.
  by rewrite string_of_list_ascii_of_string.
Qed.

(** X6: the identifier that [create_document] returns is a valid ObjectId
    text, and a request that carries it as [event_id] is for the document
    just stored, provided no earlier Event document has that identifier. *)
Theorem created_event_can_be_requested
    (data : doc) (w : world) (res : Reservation.t) :
  let rid := (create_document (collection_name Event) data w).1 in
  let w' := (create_document (collection_name Event) data w).2 in
  Forall (λ d, d !! "_id" ≠ Some (VOid (generated_oid (next_oid w))))
         (collection (collection_name Event) w) →
  Return (Reservation.event_id res) = rid →
  ObjectId (Reservation.event_id res) = Some (Reservation.event_id res) ∧
  event_of_request res w' =
    Some (stored (Reservation.event_id res) (clock w (ticks w)) data).
Proof.
  intros rid w'. unfold rid, w'. rewrite create_document_eq. cbn [fst snd].
  intros Hfresh [= Hrid]. rewrite Hrid.
  split; [apply ObjectId_generated|].
  eapply event_of_request_found.
  - rewrite collection_after_create_eq. reflexivity.
  - unfold requested_id. by rewrite Hrid, ObjectId_generated.
  - unfold requested_id. rewrite Hrid, ObjectId_generated.
    apply lookup_insert_eq.
Qed.

(** ** Sorting *)

Lemma insert_by_perm (le : doc → doc → bool) (x : doc) (l : list doc) :
  insert_by le x l ≡ₚ x :: l.
Proof.
  induction l as [|y l IH]; simpl; [done|].
  destruct (le x y); [done|]. rewrite IH. apply Permutation_swap.
Qed.

Lemma sort_by_perm (le : doc → doc → bool) (l : list doc) : sort_by le l ≡ₚ l.
Proof.
  induction l as [|x l IH]; simpl; [done|].
  by rewrite insert_by_perm, IH.
Qed.

Lemma insert_by_sorted (le : doc → doc → bool) (x : doc) (l : list doc) :
  (∀ a b, le a b = true ∨ le b a = true) →
  (∀ a b c, le a b = true → le b c = true → le a c = true) →
  StronglySorted (λ a b, le a b = true) l →
  StronglySorted (λ a b, le a b = true) (insert_by le x l).
Proof.
  intros Htotal Htrans Hl. induction Hl as [|y l Hl IH Hy]; simpl.
  - repeat constructor.
  - destruct (le x y) eqn:Hxy.
    + constructor; [by constructor|]. constructor; [done|].
      eapply Forall_impl; [exact Hy|]. intros z Hz. by eapply Htrans.
    + constructor; [done|].
      rewrite insert_by_perm. constructor; [|done].
      destruct (Htotal x y); congruence.
Qed.

Lemma sort_by_sorted (le : doc → doc → bool) (l : list doc) :
  (∀ a b, le a b = true ∨ le b a = true) →
  (∀ a b c, le a b = true → le b c = true → le a c = true) →
  StronglySorted (λ a b, le a b = true) (sort_by le l).
Proof.
  intros Htotal Htrans. induction l as [|x l IH]; simpl; [constructor|].
  by apply insert_by_sorted.
Qed.

Lemma StronglySorted_Forall2 {A B} (P : A → B → Prop) (R : relation A)
    (R' : relation B) (l : list A) (k : list B) :
  (∀ a b a' b', P a a' → P b b' → R a b → R' a' b') →
  Forall2 P l k → StronglySorted R l → StronglySorted R' k.
Proof.
  intros HR H. induction H as [|a a' l k Ha Hl IH]; intros Hs; [constructor|].
  inversion Hs as [|? ? Hs' Hall]; subst. constructor; [by apply IH|].
  clear IH Hs Hs'. induction Hl as [|b b' l k Hb Hl IH]; [constructor|].
  inversion Hall; subst. constructor; eauto.
Qed.

Lemma Event_of_stored_date (d : doc) (e : Event.t) :
  Event.of_kwargs (delete "_id" d) = Some e →
  d !! "date" = Some (VDate (Event.date e)).
Proof.
  intros (_ & _ & _ & Hd & _)%Event_of_kwargs_Some.
  unfold field_datetime in Hd. rewrite lookup_delete_ne in Hd by done.
  destruct (d !! "date") as [[]|]; congruence.
Qed.

(** X7: on a store whose Event documents hold their date and numbers
    with the declared types, [GET /api/events] lists the stored events by
    ascending start date whatever their order in the store: each item is
    the [Event] of one stored document, each document is listed once, and
    the call writes nothing. *)
Theorem list_events_sorted_by_date
    (float_repr : float → string) (w w' : world) (evs : list Event.t) :
  Forall (λ d, Event_typed d = true) (collection (collection_name Event) w) →
  list_events float_repr w = (Return evs, w') →
  w' = w ∧
  StronglySorted (λ a b, datetime_leb (Event.date a) (Event.date b) = true) evs ∧
  ∃ docs, docs ≡ₚ collection (collection_name Event) w ∧
          Forall2 (λ d e, Event.of_kwargs (delete "_id" d) = Some e) docs evs.
Proof.
  intros _. rewrite list_events_eq.
  destruct (mapM _ _) as [evs'|] eqn:Hm; [|done]. intros [= -> <-].
  apply mapM_Some in Hm. split; [done|]. split.
  - eapply (StronglySorted_Forall2 _ _ _ _ _ _ Hm).
    apply sort_by_sorted.
    + intros a b. apply bson_leb_total.
    + intros a b c. apply bson_leb_trans.
  - eexists. split; [|exact Hm]. apply sort_by_perm.
  Unshelve.
  intros a b a' b' Ha Hb. cbv beta.
  apply Event_of_stored_date in Ha, Hb. by rewrite Ha, Hb.
Qed.

(** X8: the listing is all or nothing.  On a store whose Event documents
    hold their date and numbers with the declared types, it answers
    exactly when every stored document has the required fields within
    their bounds; a single document that has not makes the whole call raise
    a validation error.  Either way the store is left as it was. *)
Theorem list_events_all_or_nothing (float_repr : float → string) (w : world) :
  Forall (λ d, Event_typed d = true) (collection (collection_name Event) w) →
  (list_events float_repr w).2 = w ∧
  ((∃ evs, (list_events float_repr w).1 = Return evs) ↔
   Forall (λ d, is_Some (Event.of_kwargs (delete "_id" d)))
          (collection (collection_name Event) w)) ∧
  ((list_events float_repr w).1 = Raise ValidationError ↔
   Exists (λ d, Event.of_kwargs (delete "_id" d) = None)
          (collection (collection_name Event) w)).
Proof.
  intros _. rewrite list_events_eq. cbn [fst snd]. split; [done|].
  unfold sort_docs.
  match goal with |- context [sort_by ?le ?c] =>
    pose proof (sort_by_perm le c) as Hperm; set (l := sort_by le c) in *
  end.
  pose proof (mapM_is_Some (λ d, Event.of_kwargs (delete "_id" d)) l) as Hsome.
  pose proof (mapM_None (λ d, Event.of_kwargs (delete "_id" d)) l) as Hnone.
  assert (Forall (λ d, is_Some (Event.of_kwargs (delete "_id" d))) l ↔
          Forall (λ d, is_Some (Event.of_kwargs (delete "_id" d)))
                 (collection (collection_name Event) w)) as HF.
  { rewrite !Forall_forall. split; intros H d Hd; apply H.
    - by rewrite Hperm. - by rewrite <- Hperm. }
  assert (Exists (λ d, Event.of_kwargs (delete "_id" d) = None) l ↔
          Exists (λ d, Event.of_kwargs (delete "_id" d) = None)
                 (collection (collection_name Event) w)) as HE.
  { rewrite !Exists_exists. split; intros (d & Hd & H); exists d; split; try done.
    - by rewrite <- Hperm. - by rewrite Hperm. }
  rewrite <- HF, <- HE, <- Hsome, <- Hnone.
  destruct (mapM _ l) as [evs|]; (split; [split|split]); try done.
  all: try by intros [? ?].
  all: try by (intros _; eexists).
Qed.

(** ** Videos by month and the theater *)

(** X9: [GET /api/video/{month_key}] is an exact lookup.  It answers with
    the first Video document whose [month_key] is the given text and,
    when there is none, with [None], whatever other videos the store
    holds: nothing is substituted.  It neither reads the clock nor writes. *)
Theorem video_by_month_exact (month_key : string) (w : world) :
  (video_by_month month_key w).2 = w ∧
  (Forall (λ d, d !! "month_key" ≠ Some (VStr month_key))
          (collection (collection_name Video) w) →
   (video_by_month month_key w).1 = Return None) ∧
  (∀ pre d post,
     collection (collection_name Video) w = (pre ++ d :: post)%list →
     Forall (λ d', d' !! "month_key" ≠ Some (VStr month_key)) pre →
     d !! "month_key" = Some (VStr month_key) →
     (video_by_month month_key w).1 = video_response d).
Proof.
  assert (∀ o, find_one [("month_key", Eq (VStr month_key))]
                 (collection (collection_name Video) w) = o →
               video_by_month month_key w =
               (match o with
                | Some d => if truthy (Some d) then video_response d else Return None
                | None => Return None
                end, w)) as Heq.
  { intros o Ho. unfold video_by_month. unfold_M. rewrite Ho.
    destruct o as [d|]; [|reflexivity].
    destruct (truthy (Some d)); [|reflexivity]. cbn [negb default].
    unfold video_response, construct. by destruct (Video.of_kwargs _). }
  split; [by rewrite (Heq _ eq_refl)|]. split.
  - intros Hnone. rewrite (Heq None); [done|].
    apply find_one_None. eapply Forall_impl; [exact Hnone|].
    intros d Hd. apply not_true_is_false. by rewrite matches_month_key.
  - intros pre d post Hc Hpre Hd. rewrite (Heq (Some d)).
    + by rewrite (truthy_nonempty d "month_key").
    + apply find_one_Some. exists pre, post. split; [done|].
      split; [|by apply matches_month_key].
      eapply Forall_impl; [exact Hpre|].
      intros d' Hd'. apply not_true_is_false. by rewrite matches_month_key.
Qed.


(** ** What is stored can be read back *)

Lemma Event_of_dump (e : Event.t) :
  Event.of_kwargs (Event.model_dump e) = Some e ↔ Event_constraints e.
Proof.
  rewrite Event_of_kwargs_Some. unfold Event_constraints.
  assert (field_opt_str (Event.model_dump e) "image_url" = Some (Event.image_url e))
    as Himg.
  { unfold field_opt_str, Event.model_dump.
    rewrite !lookup_insert_ne by done. rewrite lookup_insert_eq.
    by destruct (Event.image_url e). }
  split; [tauto|]. intros H. repeat split; try tauto; try done.
Qed.

Lemma Event_dump_to_bson (e : Event.t) :
  to_bson <$> Event.model_dump e = Event.model_dump (Event_as_stored e).
Proof.
  unfold Event.model_dump. rewrite !fmap_insert, fmap_empty.
  cbn [to_bson Event_as_stored Event.title Event.description Event.genre
       Event.date Event.duration_minutes Event.price_eur Event.seats_total
       Event.seats_available Event.image_url].
  by destruct (Event.image_url e).
Qed.

Lemma Event_of_stored (id : string) (t : datetime) (e : Event.t) :
  Event.of_kwargs (delete "_id" (stored id t (Event.model_dump e)))
  = Event.of_kwargs (Event.model_dump (Event_as_stored e)).
Proof.
  apply Event_of_kwargs_ext. intros k Hk.
  assert (k ≠ "_id" ∧ k ≠ "created_at") as [? ?].
  { unfold Event_fields in Hk. set_solver. }
  unfold stored. rewrite lookup_delete_ne by done.
  by rewrite !lookup_insert_ne, Event_dump_to_bson.
Qed.

Lemma Event_as_stored_constraints (e : Event.t) :
  Event_constraints (Event_as_stored e) ↔ Event_constraints e.
Proof. done. Qed.

Lemma bson_datetime_whole (t : datetime) :
  microsecond t mod 1000 = 0 → bson_datetime t = t.
Proof.
  intros H. destruct t as [y mo d h mi s us]. unfold bson_datetime.
  cbn in *. f_equal. rewrite Z.mul_comm. symmetry. by apply Z.div_exact.
Qed.

Lemma Event_accepted_constraints (kw : doc) (e : Event.t) :
  Event.of_kwargs kw = Some e → Event_constraints e.
Proof.
  intros Hkw. apply Event_of_kwargs_Some in Hkw. unfold Event_constraints. tauto.
Qed.

(** X11: an [Event] that meets its field constraints is read back
    unchanged from its [model_dump()]; from the document that
    [create_document] makes of it (with [_id] and [created_at]) it is read
    back with its date to the millisecond, and unchanged when the date has
    no fraction of a millisecond; one that does not meet the constraints
    is refused on reading. *)
Theorem Event_dump_round_trip (e : Event.t) (id : string) (t : datetime) :
  (Event_constraints e →
     Event.of_kwargs (Event.model_dump e) = Some e ∧
     Event.of_kwargs (delete "_id" (stored id t (Event.model_dump e)))
       = Some (Event_as_stored e) ∧
     (microsecond (Event.date e) mod 1000 = 0 → Event_as_stored e = e)) ∧
  (¬ Event_constraints e →
     Event.of_kwargs (delete "_id" (stored id t (Event.model_dump e))) = None) ∧
  (∀ kw, Event.of_kwargs kw = Some e → Event_constraints e).
Proof.
  split; [|split].
  - intros H. rewrite Event_of_stored. split; [by apply Event_of_dump|].
    split; [by apply Event_of_dump|].
    intros Hus. destruct e. unfold Event_as_stored. cbn in *.
    by rewrite bson_datetime_whole.
  - intros H. rewrite Event_of_stored.
    destruct (Event.of_kwargs (Event.model_dump (Event_as_stored e)))
      as [e'|] eqn:He; [|done].
    exfalso. apply H. change (Event_constraints (Event_as_stored e)).
    set (e0 := Event_as_stored e) in *. clearbody e0. clear e H. rename e0 into e.
    assert (e' = e) as ->; [|by apply Event_of_dump].
    apply Event_of_kwargs_Some in He as (H1 & H2 & H3 & H4 & H5 & H6 & H7 & H8 & H9 & _).
    destruct e, e'; simpl in *.
    unfold field_str, field_int, field_float, field_datetime, field_opt_str,
      Event.model_dump in *; simpl in *.
    repeat (rewrite ?lookup_insert_eq in *; rewrite ?lookup_insert_ne in * by done).
    destruct image_url, image_url0; simpl in *; congruence.
  - intros kw. apply Event_accepted_constraints.
Qed.

(** ** The seeded store *)

Lemma demo_events_constraints (base_date : datetime) (es : list Event.t) :
  mapM Event.of_kwargs (demo_events_kwargs base_date) = Some es →
  Forall Event_constraints es.
Proof.
  intros He. apply mapM_Some_1 in He.
  induction He; constructor; [by eapply Event_accepted_constraints|done].
Qed.

Lemma demo_events_dates (base_date : datetime) (es : list Event.t) :
  mapM Event.of_kwargs (demo_events_kwargs base_date) = Some es →
  Event.date <$> es = demo_dates base_date.
Proof.
  intros He. apply mapM_Some_1 in He. unfold demo_events_kwargs in He.
  apply Forall2_cons_inv_l in He as (e1 & ? & H1 & He & ->).
  apply Forall2_cons_inv_l in He as (e2 & ? & H2 & He & ->).
  apply Forall2_cons_inv_l in He as (e3 & ? & H3 & He & ->).
  apply Forall2_nil_inv_l in He as ->.
  apply Event_of_kwargs_Some in H1 as (_ & _ & _ & H1 & _).
  apply Event_of_kwargs_Some in H2 as (_ & _ & _ & H2 & _).
  apply Event_of_kwargs_Some in H3 as (_ & _ & _ & H3 & _).
  injection H1 as H1. injection H2 as H2. injection H3 as H3.
  cbn [fmap list_fmap]. rewrite <- H1, <- H2, <- H3.
  reflexivity.
Qed.

(** The world that seeding an empty Event collection leaves. *)
Lemma seed_fresh_world (validate_email : string → option string) (w : world) :
  is_Some (validate_email "kontakt@kabarett-salon.at") →
  collection (collection_name Event) w = [] →
  ∃ (theater : Theater.t) (owner1 owner2 : doc) (e1 e2 e3 : Event.t),
    Theater.of_kwargs validate_email theater_kwargs = Some theater ∧
    Forall Event_constraints [e1; e2; e3] ∧
    Forall (λ e, Event.seats_available e = Event.seats_total e) [e1; e2; e3] ∧
    Event.date <$> [e1; e2; e3] = demo_dates (clock w (ticks w + 3)%nat) ∧
    seed validate_email w =
    (Return seeded,
     after_create (collection_name Video)
       (Video.model_dump
          (Video.mk (strftime_Y_m (clock w (ticks w + 7)%nat))
             "https://cdn.coverr.co/videos/coverr-theatre-actors-having-fun-0044/1080p.mp4"
             (Some "Aus dem aktuellen Programm")))
       (tick
          (after_create (collection_name Event) (Event.model_dump e3)
             (after_create (collection_name Event) (Event.model_dump e2)
                (after_create (collection_name Event) (Event.model_dump e1) (tick
                   (after_create (collection_name Ownerprofile) owner2
                      (after_create (collection_name Ownerprofile) owner1
                         (after_create (collection_name Theater)
                            (Theater.model_dump theater) w))))))))).
Proof.
  intros [addr Hmail] Hnil. unfold seed. unfold_M. unfold estimated_document_count.
  rewrite Hnil. change (0 <? Z.of_nat (length [])) with false. cbv beta iota.
  destruct (Theater.of_kwargs validate_email theater_kwargs) as [theater|] eqn:Et.
  2: { exfalso. unfold Theater.of_kwargs in Et.
       change (field_str theater_kwargs "email")
         with (Some "kontakt@kabarett-salon.at") in Et.
       cbn [mbind option_bind] in Et. rewrite Hmail in Et. discriminate Et. }
  cbn [construct]. run_M.
  rewrite (mapM_construct Ownerprofile.of_kwargs).
  destruct owners_accepted as (o1 & o2 & ->).
  cbn [mapM]. run_M.
  unfold utcnow at 1. run_M.
  rewrite (mapM_construct Event.of_kwargs).
  match goal with
  | |- context [demo_events_kwargs ?b] =>
      destruct (demo_events_accepted b) as (e1 & e2 & e3 & He & Hseats);
      pose proof (demo_events_constraints _ _ He) as Hcons;
      pose proof (demo_events_dates _ _ He) as Hdates;
      rewrite He; clear He
  end.
  cbn [mapM]. run_M.
  unfold utcnow at 1. run_M.
  match goal with
  | |- context [construct (Video.of_kwargs ?kw)] =>
      destruct (Video.of_kwargs kw) as [video|] eqn:Ev;
        [|exfalso; vm_compute in Ev; discriminate Ev]
  end.
  cbn [construct]. run_M.
  apply Video_of_kwargs_Some in Ev as (Hk & Hu & Hc).
  match type of Hk with
  | field_str (list_to_map (("month_key", VStr ?k) :: ?l)) _ = _ =>
      change (field_str (list_to_map (("month_key", VStr k) :: l)) "month_key")
        with (Some k) in Hk;
      change (field_str (list_to_map (("month_key", VStr k) :: l)) "video_url")
        with (Some "https://cdn.coverr.co/videos/coverr-theatre-actors-having-fun-0044/1080p.mp4") in Hu;
      change (field_opt_str (list_to_map (("month_key", VStr k) :: l)) "caption")
        with (Some (Some "Aus dem aktuellen Programm")) in Hc
  end.
  injection Hk as Hk. injection Hu as Hu. injection Hc as Hc.
  exists theater. do 2 eexists. exists e1, e2, e3.
  split; [done|]. split; [done|]. split; [done|].
  split; [by replace (ticks w + 3)%nat with (S (S (S (ticks w)))) by lia|].
  assert (video = Video.mk (strftime_Y_m (clock w (ticks w + 7)%nat))
                    "https://cdn.coverr.co/videos/coverr-theatre-actors-having-fun-0044/1080p.mp4"
                    (Some "Aus dem aktuellen Programm")) as Hv.
  { destruct video; simpl in *. rewrite <- Hk, <- Hu, <- Hc. do 4 f_equal. lia. }
  rewrite <- Hv. reflexivity.
Qed.

(** The Event documents of a store seeded from an empty Event collection. *)
Lemma seed_fresh_events (validate_email : string → option string) (w : world) :
  is_Some (validate_email "kontakt@kabarett-salon.at") →
  collection (collection_name Event) w = [] →
  ∃ (i1 i2 i3 : string) (t1 t2 t3 : datetime) (e1 e2 e3 : Event.t),
    collection (collection_name Event) (seed validate_email w).2 =
      [stored i1 t1 (Event.model_dump e1); stored i2 t2 (Event.model_dump e2);
       stored i3 t3 (Event.model_dump e3)] ∧
    Forall Event_constraints [e1; e2; e3] ∧
    Forall (λ e, Event.seats_available e = Event.seats_total e) [e1; e2; e3] ∧
    Event.date <$> [e1; e2; e3] = demo_dates (clock w (ticks w + 3)%nat).
Proof.
  intros Hmail Hnil.
  destruct (seed_fresh_world validate_email w Hmail Hnil)
    as (th & o1 & o2 & e1 & e2 & e3 & _ & Hcons & Hall & Hdates & ->).
  cbn [snd]. do 6 eexists. exists e1, e2, e3. split; [|done].
  repeat rewrite ?collection_after_create_eq, ?collection_tick,
    ?collection_after_create_ne by done.
  rewrite Hnil. reflexivity.
Qed.

(** The Video collection of a store seeded from an empty Event collection. *)
Lemma seed_fresh_video (validate_email : string → option string) (w : world) :
  is_Some (validate_email "kontakt@kabarett-salon.at") →
  collection (collection_name Event) w = [] →
  ∃ (i : string) (t : datetime),
    collection (collection_name Video) (seed validate_email w).2 =
      (collection (collection_name Video) w ++
       [stored i t
          (Video.model_dump
             (Video.mk (strftime_Y_m (clock w (ticks w + 7)%nat))
                "https://cdn.coverr.co/videos/coverr-theatre-actors-having-fun-0044/1080p.mp4"
                (Some "Aus dem aktuellen Programm")))])%list.
Proof.
  intros Hmail Hnil.
  destruct (seed_fresh_world validate_email w Hmail Hnil)
    as (th & o1 & o2 & e1 & e2 & e3 & _ & Hcons & Hall & Hdates & ->).
  cbn [snd]. do 2 eexists.
  repeat rewrite ?collection_after_create_eq, ?collection_tick,
    ?collection_after_create_ne by done.
  reflexivity.
Qed.

(** The Theater collection of a store seeded from an empty Event
    collection. *)
Lemma seed_fresh_theater (validate_email : string → option string) (w : world) :
  is_Some (validate_email "kontakt@kabarett-salon.at") →
  collection (collection_name Event) w = [] →
  ∃ (i : string) (t : datetime) (theater : Theater.t),
    Theater.of_kwargs validate_email theater_kwargs = Some theater ∧
    collection (collection_name Theater) (seed validate_email w).2 =
      (collection (collection_name Theater) w ++
       [stored i t (Theater.model_dump theater)])%list.
Proof.
  intros Hmail Hnil.
  destruct (seed_fresh_world validate_email w Hmail Hnil)
    as (th & o1 & o2 & e1 & e2 & e3 & Hth & _ & _ & _ & ->).
  cbn [snd]. do 2 eexists. exists th. split; [done|].
  repeat rewrite ?collection_after_create_eq, ?collection_tick,
    ?collection_after_create_ne by done.
  reflexivity.
Qed.

(** ** Any number of requests in flight *)

Lemma split_cases {A} (pre post pre' post' : list A) (e d : A) :
  (pre ++ e :: post = pre' ++ d :: post')%list →
  (pre = pre' ∧ e = d ∧ post = post') ∨
  (∃ m, pre' = (pre ++ e :: m)%list ∧ post = (m ++ d :: post')%list) ∨
  (∃ m, pre = (pre' ++ d :: m)%list ∧ post' = (m ++ e :: post)%list).
Proof.
  revert pre'. induction pre as [|x pre IH]; intros [|y pre'] H;
    simpl in H; injection H as ? H; subst.
  - by left.
  - right. left. by eexists.
  - right. right. by eexists.
  - destruct (IH _ H) as [(-> & -> & ->)|[(m & -> & ->)|(m & -> & ->)]].
    + by left.
    + right. left. by eexists.
    + right. right. by eexists.
Qed.

Lemma same_id_eq (a b : value) :
  is_id_value a → is_id_value b → same_id a b = true ↔ a = b.
Proof.
  destruct a, b; simpl; try done; intros _ _;
    rewrite String.eqb_eq; split; congruence.
Qed.

Lemma apply_decrement_seats (t : Z) (now : datetime) (d d' : doc) (a : Z) :
  d !! "seats_available" = Some (VInt a) →
  apply_update (decrement_update t now) d = Some d' →
  d' = <["updated_at" := VDate (bson_datetime now)]> (<["seats_available" := VInt (a - t)]> d).
Proof.
  intros Ha. unfold apply_update, decrement_update. cbn [upd_inc upd_set apply_incs].
  unfold apply_inc. cbn [fst snd]. rewrite Ha.
  destruct (negb (int64_ok (- t))); [done|].
  destruct (int64_ok (a + - t)); [|done].
  cbn. intros [= <-]. by replace (a + - t) with (a - t) by lia.
Qed.

Lemma only_event_ext (id : value) (n : Z) (w w' : world) :
  collection (collection_name Event) w' = collection (collection_name Event) w →
  only_event id n w → only_event id n w'.
Proof. unfold only_event. by intros ->. Qed.

(** One store operation of one request, seen from one event: the seats
    that leave the event are the seats that the request has taken. *)
Lemma step_share (id : value) (n : Z) (res : Reservation.t) (p : pc) (w : world) :
  is_id_value id → only_event id n w → 0 ≤ n → holds_event res p →
  ∃ n', only_event id n' (step res p w).2 ∧ 0 ≤ n' ∧
        n' + share id res (step res p w).1 = n + share id res p ∧
        holds_event res (step res p w).1.
Proof.
  intros Hid Hw Hn Hp. destruct p as [| |ev| |r].
  - rewrite step_probe. exists n. by repeat split.
  - rewrite step_lookup. exists n.
    destruct (event_of_request res w) as [ev|] eqn:Hev; [|by repeat split].
    destruct (py_int _); [|by repeat split].
    case_match; [by repeat split|].
    cbn [fst snd]. unfold share. cbn [won]. rewrite !andb_false_r.
    repeat split; try done.
    intros e [= <-]. by apply event_of_request_split in Hev as (? & ? & _ & _ & ?).
  - pose proof (Hp ev eq_refl) as Hev. rewrite (step_update _ _ _ _ Hev).
    destruct (find_one_and_update _ _ _) as [[c' [upd|]]|] eqn:Hu; cbn [fst snd].
    2, 3: exists n; unfold share; cbn [won]; rewrite !andb_false_r;
          split; [by eapply only_event_ext; [apply collection_tick|]|done].
    apply find_one_and_update_cases in Hu
      as [(? & _)|(pre' & d & post' & d' & [= ->] & Hc & -> & Hpre' & Hm & Hd')];
      [done|].
    apply matches_decrement in Hm as [Hdid Hgte]; [|apply requested_id_is_id].
    destruct Hw as (pre & e & post & Hw & Hpre & Hpost & He & Hseats).
    rewrite Hw in Hc.
    pose proof (apply_decrement_inv _ _ _ _ Hd') as [_ Hkeep].
    assert (d' !! "_id" = d !! "_id") as Hid' by (by apply Hkeep).
    unfold share. cbn [won]. rewrite !andb_false_r, andb_true_r.
    destruct (same_id (requested_id res) id) eqn:Hsame.
    + apply same_id_eq in Hsame; [|apply requested_id_is_id|done].
      rewrite Hsame in *.
      apply split_cases in Hc as [(<- & <- & <-)|[(m & -> & ->)|(m & -> & ->)]].
      * rewrite Hseats, cond_gte_int in Hgte. apply Z.leb_le in Hgte.
        apply (apply_decrement_seats _ _ _ _ _ Hseats) in Hd' as ->.
        exists (n - Reservation.tickets res).
        split; [|split; [lia|split; [lia|done]]].
        exists pre, (<["updated_at" := VDate (bson_datetime (clock w (ticks w)))]>
                       (<["seats_available" := VInt (n - Reservation.tickets res)]> e)), post.
        rewrite collection_with_eq. repeat split; try done.
        -- by rewrite !lookup_insert_ne.
        -- rewrite lookup_insert_ne by done. by rewrite lookup_insert_eq.
      * exfalso. apply Forall_app in Hpost as [_ Hpost].
        by apply Forall_cons in Hpost as [? _].
      * exfalso. apply Forall_app in Hpre as [_ Hpre].
        by apply Forall_cons in Hpre as [? _].
    + assert (requested_id res ≠ id) as Hne.
      { intros Heq. apply not_true_iff_false in Hsame. apply Hsame.
        apply same_id_eq; [apply requested_id_is_id|done..]. }
      exists n. split; [|done].
      apply split_cases in Hc as [(<- & <- & <-)|[(m & -> & ->)|(m & -> & ->)]].
      * congruence.
      * exists pre, e, (m ++ d' :: post')%list. rewrite collection_with_eq.
        split; [by rewrite <- app_assoc|]. repeat split; try done.
        apply Forall_app in Hpost as [? Hpost].
        apply Forall_cons in Hpost as [? ?].
        apply Forall_app. split; [done|]. apply Forall_cons. split; [|done].
        by rewrite Hid'.
      * exists (pre' ++ d' :: m)%list, e, post. rewrite collection_with_eq.
        split; [by rewrite <- app_assoc|]. repeat split; try done.
        apply Forall_app in Hpre as [? Hpre].
        apply Forall_cons in Hpre as [? ?].
        apply Forall_app. split; [done|]. apply Forall_cons. split; [|done].
        by rewrite Hid'.
  - rewrite step_record. exists n. cbn [fst snd]. unfold share. cbn [won].
    repeat split; try done.
    eapply only_event_ext; [|done]. by apply collection_after_create_ne.
  - rewrite step_done. exists n. by repeat split.
Qed.

Lemma sold_insert (id : value) (ps : pool) (i : nat) (res : Reservation.t) (p p' : pc) :
  ps !! i = Some (res, p) →
  sold id (<[i := (res, p')]> ps) = sold id ps - share id res p + share id res p'.
Proof.
  unfold sold. revert i.
  induction ps as [|[r q] ps IH]; intros [|i] H; [done|done| |].
  - injection H as -> ->.
    change (<[0%nat := (res, p')]> ((res, p) :: ps)) with ((res, p') :: ps).
    cbn [foldr fst snd]. lia.
  - change (<[S i := (res, p')]> ((r, q) :: ps))
      with ((r, q) :: <[i := (res, p')]> ps).
    cbn [foldr]. etrans; [apply (f_equal (Z.add _)), (IH i H)|]. lia.
Qed.

Lemma sold_arriving (id : value) (rs : list Reservation.t) : sold id (arriving rs) = 0.
Proof.
  induction rs as [|r rs IH]; [done|].
  change (sold id (arriving (r :: rs)))
    with (share id r AtProbe + sold id (arriving rs)).
  rewrite IH. unfold share. cbn [won]. by rewrite andb_false_r.
Qed.

(** What holds of a pool at every moment. *)
Lemma pool_step_inv (id : value) (a : Z) (rs : list Reservation.t)
    (wp : world * pool) (i : nat) :
  is_id_value id →
  (wp.2.*1 = rs ∧ Forall (λ rp, holds_event rp.1 rp.2) wp.2 ∧
   ∃ n, only_event id n wp.1 ∧ 0 ≤ n ∧ n + sold id wp.2 = a) →
  (pool_step wp i).2.*1 = rs ∧
  Forall (λ rp, holds_event rp.1 rp.2) (pool_step wp i).2 ∧
  ∃ n, only_event id n (pool_step wp i).1 ∧ 0 ≤ n ∧ n + sold id (pool_step wp i).2 = a.
Proof.
  intros Hid (Hrs & Hall & n & Hw & Hn & Hsum). destruct wp as [w ps].
  unfold pool_step. cbn [fst snd] in *.
  destruct (ps !! i) as [[res p]|] eqn:Hi; [|by eauto 10].
  assert (holds_event res p) as Hp
    by apply (proj1 (Forall_lookup _ _) Hall _ _ Hi).
  destruct (step_share id n res p w Hid Hw Hn Hp) as (n' & Hw' & Hn' & Hs & Hp').
  destruct (step res p w) as [p' w']. cbn [fst snd] in *.
  split; [|split].
  - rewrite list_fmap_insert. cbn [fst]. rewrite list_insert_id; [done|].
    by rewrite list_lookup_fmap, Hi.
  - by apply Forall_insert.
  - exists n'. split; [done|]. split; [done|].
    rewrite (sold_insert _ _ _ _ _ _ Hi). lia.
Qed.

(** X12: however the store operations of any number of requests interleave, an
    event never gives out more seats than it had: the seats left and the
    seats taken add up to the seats at the start, and the seats left never
    go below zero. *)
Theorem pool_never_oversells (id : value) (a : Z) (rs : list Reservation.t)
    (s : list nat) (w : world) :
  is_id_value id → only_event id a w → 0 ≤ a →
  (run_pool s (w, arriving rs)).2.*1 = rs ∧
  ∃ n, only_event id n (run_pool s (w, arriving rs)).1 ∧
       0 ≤ n ∧ n + sold id (run_pool s (w, arriving rs)).2 = a.
Proof.
  intros Hid Hw Ha.
  assert (∀ wp : world * pool,
    (wp.2.*1 = rs ∧ Forall (λ rp, holds_event rp.1 rp.2) wp.2 ∧
     ∃ n, only_event id n wp.1 ∧ 0 ≤ n ∧ n + sold id wp.2 = a) →
    (run_pool s wp).2.*1 = rs ∧
    ∃ n, only_event id n (run_pool s wp).1 ∧ 0 ≤ n ∧ n + sold id (run_pool s wp).2 = a)
    as Hgen.
  { induction s as [|i s IH]; intros wp Hinv.
    - destruct Hinv as (? & _ & ?). done.
    - unfold run_pool. cbn [fold_left]. apply IH. by apply pool_step_inv. }
  apply Hgen. cbn [fst snd]. split; [|split].
  - unfold arriving. rewrite <- list_fmap_compose. apply list_fmap_id.
  - unfold arriving. apply Forall_fmap, Forall_true. intros res e. done.
  - exists a. rewrite sold_arriving. split; [done|]. split; [done|lia].
Qed.

(** ** The seeded store in use *)

Lemma stored_lookup_ne (id : string) (t : datetime) (d : doc) (k : string) :
  k ≠ "_id" → k ≠ "created_at" → stored id t d !! k = to_bson <$> d !! k.
Proof. intros. unfold stored. by rewrite !lookup_insert_ne, lookup_fmap. Qed.

Lemma stored_event_inv (id : string) (t : datetime) (e : Event.t) :
  Event_constraints e → Event.seats_available e = Event.seats_total e →
  seats_inv (stored id t (Event.model_dump e)).
Proof.
  intros (_ & _ & _ & Ha) Heq.
  exists (Event.seats_available e), (Event.seats_total e).
  rewrite !stored_lookup_ne by done. repeat split; [lia..].
Qed.

Lemma seed_rejected (validate_email : string → option string) (w : world) :
  validate_email "kontakt@kabarett-salon.at" = None →
  collection (collection_name Event) w = [] →
  seed validate_email w = (Raise ValidationError, w).
Proof.
  intros Hmail Hnil. unfold seed. unfold_M. unfold estimated_document_count.
  rewrite Hnil. change (0 <? Z.of_nat (length [])) with false. cbv beta iota.
  assert (Theater.of_kwargs validate_email theater_kwargs = None) as ->; [|done].
  unfold Theater.of_kwargs.
  change (field_str theater_kwargs "email")
    with (Some "kontakt@kabarett-salon.at").
  cbn [mbind option_bind]. rewrite Hmail. vm_compute. reflexivity.
Qed.

Lemma seed_events_inv (validate_email : string → option string) (w : world) :
  events_inv w → events_inv (seed validate_email w).2.
Proof.
  intros Hw. destruct (collection (collection_name Event) w) as [|d c] eqn:Hc.
  - destruct (validate_email "kontakt@kabarett-salon.at") as [addr|] eqn:Hmail.
    + destruct (seed_fresh_events validate_email w) as
        (i1 & i2 & i3 & t1 & t2 & t3 & e1 & e2 & e3 & Hev & Hcons & Hall & _);
        [by rewrite Hmail|done|].
      unfold events_inv. rewrite Hev.
      repeat match goal with
      | H : Forall _ (_ :: _) |- _ => apply Forall_cons in H as [? H]
      end.
      repeat constructor; by apply stored_event_inv.
    + by rewrite seed_rejected.
  - rewrite seed_already; [done|]. by rewrite Hc.
Qed.

Lemma serve_all_inv (rs : list Reservation.t) (w : world) :
  Forall (λ res, 0 ≤ Reservation.tickets res) rs →
  events_inv w → events_inv (serve_all rs w).
Proof.
  intros Hrs. revert w. induction Hrs as [|res rs Hres _ IH]; intros w Hw; [done|].
  unfold serve_all. cbn [fold_left]. apply IH.
  eapply decremented_all_inv; [exact Hres|exact Hw|].
  by apply create_reservation_decremented.
Qed.

(** X13: seeding and then any sequence of reservations: every event of the
    store has between zero and its total number of seats available. *)
Theorem seed_then_reservations_keep_seats
    (validate_email : string → option string) (rs : list Reservation.t) (w : world) :
  events_inv w →
  Forall (λ res, 0 ≤ Reservation.tickets res) rs →
  events_inv (seed validate_email w).2 ∧
  events_inv (serve_all rs (seed validate_email w).2).
Proof.
  intros Hw Hrs. split; [by apply seed_events_inv|].
  apply serve_all_inv; [done|]. by apply seed_events_inv.
Qed.

Lemma Video_of_stored (id : string) (t : datetime) (v : Video.t) :
  Video.of_kwargs (delete "_id" (stored id t (Video.model_dump v))) = Some v.
Proof. by destruct v as [k u [c|]]. Qed.

(** X14: the video that seeding stores is the one that [current_video] serves
    from then on, whatever the month of the request, as long as the Video
    collection holds nothing else. *)
Theorem seeded_video_is_current
    (validate_email : string → option string) (w w2 : world) :
  is_Some (validate_email "kontakt@kabarett-salon.at") →
  collection (collection_name Event) w = [] →
  collection (collection_name Video) w = [] →
  collection (collection_name Video) w2 =
    collection (collection_name Video) (seed validate_email w).2 →
  current_video w2 =
  (Return (Some (Video.mk
                   (strftime_Y_m (clock w (ticks w + 7)%nat))
                   "https://cdn.coverr.co/videos/coverr-theatre-actors-having-fun-0044/1080p.mp4"
                   (Some "Aus dem aktuellen Programm"))),
   tick w2).
Proof.
  intros Hmail Hnil Hvid Hsame.
  destruct (seed_fresh_video validate_email w Hmail Hnil) as (i & t & Hv).
  rewrite Hv, Hvid in Hsame. cbn [app] in Hsame.
  match type of Hsame with _ = [?x] => set (d := x) in * end.
  assert (video_response d = Return (Some (Video.mk
            (strftime_Y_m (clock w (ticks w + 7)%nat))
            "https://cdn.coverr.co/videos/coverr-theatre-actors-having-fun-0044/1080p.mp4"
            (Some "Aus dem aktuellen Programm")))) as Hresp.
  { unfold video_response, d. by rewrite Video_of_stored. }
  destruct (find_one [("month_key", Eq (VStr (strftime_Y_m (clock w2 (ticks w2)))))]
              (collection (collection_name Video) w2)) as [d'|] eqn:Hfind.
  - rewrite (current_video_found _ _ Hfind). rewrite Hsame in Hfind.
    unfold find_one, find in Hfind. cbn [List.filter] in Hfind.
    destruct (matches _ d); [|done]. injection Hfind as <-. by rewrite Hresp.
  - rewrite (current_video_fallback _ Hfind). rewrite Hsame.
    change (find_one_sorted [] "created_at" (-1) [d]) with (Some d).
    change (truthy (Some d)) with true. cbv iota. by rewrite Hresp.
Qed.

Lemma demo_dates_order_12 (b : datetime) :
  datetime_leb (replace b None 19 30) (replace b None 20 0) = true.
Proof.
  unfold datetime_leb, datetime_fields, replace.
  cbn [lex_leb year month day hour minute second microsecond default].
  rewrite !Z.ltb_irrefl, !Z.eqb_refl. done.
Qed.

Lemma demo_dates_order_3 (b : datetime) (h m : Z) :
  18 < h →
  datetime_leb (replace b None h m)
               (replace b (Some (Z.min (day b + 3) 28)) 18 0) = (day b <? 28).
Proof.
  intros Hh. unfold datetime_leb, datetime_fields, replace.
  cbn [lex_leb year month day hour minute second microsecond default].
  rewrite !Z.ltb_irrefl, !Z.eqb_refl. cbn [orb andb]. unfold id.
  destruct (Z.ltb_spec (day b) 28) as [Hd|Hd].
  - apply orb_true_iff. left. apply Z.ltb_lt. lia.
  - apply orb_false_iff. split; [apply Z.ltb_ge; lia|].
    apply andb_false_iff. right.
    apply orb_false_iff. split; [apply Z.ltb_ge; lia|].
    apply andb_false_iff. left. apply Z.eqb_neq. lia.
Qed.

Lemma sort_by_three (le : doc → doc → bool) (a b c : doc) :
  sort_by le [a; b; c] =
  if le b c
  then if le a b then [a; b; c]
       else b :: (if le a c then [a; c] else [c; a])
  else if le a c then [a; c; b]
       else c :: (if le a b then [a; b] else [b; a]).
Proof. unfold sort_by. cbn [foldr insert_by]. by destruct (le b c). Qed.

Lemma bson_leb_dates (a b : datetime) :
  bson_leb (VDate a) (VDate b) = datetime_leb a b.
Proof. reflexivity. Qed.

Lemma stored_event_date (id : string) (t : datetime) (e : Event.t) :
  default VNone (stored id t (Event.model_dump e) !! "date")
  = VDate (bson_datetime (Event.date e)).
Proof. by rewrite stored_lookup_ne. Qed.

Lemma bson_datetime_replace (b : datetime) (d : option Z) (h m : Z) :
  bson_datetime (replace b d h m) = replace b d h m.
Proof. reflexivity. Qed.

(** X15: seeding an empty store and listing the events: the three demo events,
    all seats free, by date; the workshop comes last when seeding before
    the 28th of a month and first from the 28th on. *)
Theorem seeded_events_listed
    (validate_email : string → option string) (float_repr : float → string)
    (w : world) :
  is_Some (validate_email "kontakt@kabarett-salon.at") →
  collection (collection_name Event) w = [] →
  ∃ e1 e2 e3 : Event.t,
    Forall Event_constraints [e1; e2; e3] ∧
    Forall (λ e, Event.seats_available e = Event.seats_total e) [e1; e2; e3] ∧
    Event.date <$> [e1; e2; e3] = demo_dates (clock w (ticks w + 3)%nat) ∧
    list_events float_repr (seed validate_email w).2 =
    (Return (if day (clock w (ticks w + 3)%nat) <? 28
             then [e1; e2; e3] else [e3; e1; e2]),
     (seed validate_email w).2).
Proof.
  intros Hmail Hnil.
  destruct (seed_fresh_events validate_email w Hmail Hnil) as
    (i1 & i2 & i3 & t1 & t2 & t3 & e1 & e2 & e3 & Hev & Hcons & Hall & Hdates).
  exists e1, e2, e3. split; [done|]. split; [done|]. split; [done|].
  rewrite list_events_eq, Hev. f_equal.
  set (b := clock w (ticks w + 3)%nat) in *.
  injection Hdates as H1 H2 H3.
  unfold sort_docs. rewrite sort_by_three. cbv beta zeta.
  rewrite !stored_event_date. change (0 <=? 1) with true. cbv iota.
  rewrite !bson_leb_dates, H1, H2, H3, !bson_datetime_replace.
  rewrite demo_dates_order_12, !demo_dates_order_3 by lia.
  assert (∀ i t e, Event_constraints e →
            microsecond (Event.date e) mod 1000 = 0 →
            Event.of_kwargs (delete "_id" (stored i t (Event.model_dump e))) = Some e)
    as Hback.
  { intros i t e He Hus. rewrite Event_of_stored.
    assert (Event_as_stored e = e) as ->; [|by apply Event_of_dump].
    destruct e. unfold Event_as_stored. cbn in *.
    by rewrite bson_datetime_whole. }
  repeat match goal with
  | H : Forall _ (_ :: _) |- _ => apply Forall_cons in H as [? H]
  end.
  destruct (day b <? 28); cbn [mapM];
    rewrite !Hback by (done || by rewrite ?H1, ?H2, ?H3); reflexivity.
Qed.

(** ** The theater of the seeded store, and requests as the model accepts them *)

Lemma theater_info_found (validate_email : string → option string)
    (w : world) (d : doc) :
  find_one_sorted [] "created_at" (-1) (collection (collection_name Theater) w)
    = Some d →
  is_Some (d !! "_id") →
  theater_info validate_email w = (theater_response validate_email d, w).
Proof.
  intros Hs Hid. unfold theater_info. unfold_M. rewrite Hs.
  rewrite (truthy_nonempty d "_id") by done.
  cbn [negb default]. unfold theater_response, construct.
  by destruct (Theater.of_kwargs _ _).
Qed.

(** Reading a stored theater back validates its address once more. *)
Lemma Theater_of_stored (validate_email : string → option string)
    (id : string) (t : datetime) (x : Theater.t) :
  Theater.of_kwargs validate_email (delete "_id" (stored id t (Theater.model_dump x)))
  = with_email x <$> validate_email (Theater.email x).
Proof.
  destruct x as [n tg st ad ph em oh tr].
  set (kw := delete "_id" (stored id t (Theater.model_dump _))).
  unfold Theater.of_kwargs.
  assert (field_str kw "name" = Some n) as -> by reflexivity.
  assert (field_str kw "tagline" = Some tg) as -> by reflexivity.
  assert (field_str kw "story" = Some st) as -> by reflexivity.
  assert (field_str kw "address" = Some ad) as -> by reflexivity.
  assert (field_str kw "phone" = Some ph) as -> by reflexivity.
  assert (field_str kw "email" = Some em) as -> by reflexivity.
  assert (field_opt_str kw "opening_hours" = Some oh) as ->
    by (by destruct oh).
  assert (field_opt_str kw "transport_howto" = Some tr) as ->
    by (by destruct tr).
  cbn [mbind option_bind Theater.email]. by destruct (validate_email em).
Qed.

(** X16: [GET /api/theater] on a store seeded from nothing: the theater of the
    seed, with its address validated a second time; where the validation
    rejects the address that it gave itself, the request fails. *)
Theorem seeded_theater_info
    (validate_email : string → option string) (w : world) (addr : string) :
  validate_email "kontakt@kabarett-salon.at" = Some addr →
  collection (collection_name Event) w = [] →
  collection (collection_name Theater) w = [] →
  ∃ t : Theater.t,
    Theater.of_kwargs validate_email theater_kwargs = Some t ∧
    Theater.email t = addr ∧
    theater_info validate_email (seed validate_email w).2 =
    (match validate_email addr with
     | Some addr' => Return (Some (with_email t addr'))
     | None => Raise ValidationError
     end, (seed validate_email w).2).
Proof.
  intros Hmail Hnil Hth.
  destruct (seed_fresh_theater validate_email w) as (i & ti & t & Ht & Hc);
    [by rewrite Hmail|done|].
  exists t. split; [done|].
  assert (Theater.email t = addr) as Hem.
  { unfold Theater.of_kwargs in Ht.
    change (field_str theater_kwargs "email")
      with (Some "kontakt@kabarett-salon.at") in Ht.
    cbn [mbind option_bind] in Ht. rewrite Hmail in Ht.
    vm_compute in Ht. by injection Ht as <-. }
  split; [done|]. rewrite Hth in Hc. cbn [app] in Hc.
  rewrite (theater_info_found _ _ (stored i ti (Theater.model_dump t))).
  - unfold theater_response. rewrite Theater_of_stored, Hem.
    by destruct (validate_email addr).
  - by rewrite Hc.
  - unfold stored. rewrite lookup_insert_eq. by eexists.
Qed.

Lemma Reservation_accepted_tickets (validate_email : string → option string)
    (kw : doc) (res : Reservation.t) :
  Reservation.of_kwargs validate_email kw = Some res →
  1 ≤ Reservation.tickets res ≤ 10.
Proof.
  unfold Reservation.of_kwargs. intros H.
  repeat match type of H with
  | (?m ≫= _) = Some _ => destruct m; cbn [mbind option_bind] in H; [|done]
  end.
  match type of H with
  | (if ?c then _ else _) = _ => destruct c eqn:E; [|done]
  end.
  injection H as <-. cbn [Reservation.tickets].
  apply andb_true_iff in E as [E1 E2]. apply Z.leb_le in E1, E2. lia.
Qed.

(** X17: a request that the [Reservation] model accepts asks for one to ten
    tickets; on an event with ten or more seats left it is therefore
    confirmed, and takes exactly its tickets. *)
Theorem accepted_request_is_served
    (validate_email : string → option string) (kw : doc)
    (res : Reservation.t) (w : world) (ev : doc) (a : Z) :
  Reservation.of_kwargs validate_email kw = Some res →
  event_of_request res w = Some ev →
  ev !! "seats_available" = Some (VInt a) →
  10 ≤ a ≤ int64_max →
  (create_reservation res w).1 = Return (confirmed (generated_oid (next_oid w))) ∧
  ∃ ev', event_of_request res (create_reservation res w).2 = Some ev' ∧
         ev' !! "seats_available" = Some (VInt (a - Reservation.tickets res)) ∧
         0 ≤ a - Reservation.tickets res.
Proof.
  intros Hres Hev Hseats Ha.
  pose proof (Reservation_accepted_tickets _ _ _ Hres) as Ht.
  destruct (event_of_request_split _ _ _ Hev) as (pre & post & Hc & Hpre & Hid).
  set (ev' := <["updated_at" := VDate (bson_datetime (clock w (ticks w)))]>
                (<["seats_available" := VInt (a - Reservation.tickets res)]> ev)).
  assert (find_one_and_update
            (decrement_filter (requested_id res) (Reservation.tickets res))
            (decrement_update (Reservation.tickets res) (clock w (ticks w)))
            (collection (collection_name Event) w)
          = Some ((pre ++ ev' :: post)%list, Some ev')) as Hupd.
  { rewrite Hc. apply decrement_hit; try done; try lia;
      apply int64_range; unfold int64_max in *; lia. }
  rewrite create_reservation_eq, Hev. unfold dict_get. rewrite Hseats.
  cbn [py_int].
  destruct (Z.ltb_spec a (Reservation.tickets res)); [lia|].
  rewrite Hid, Hupd. cbn [fst snd]. split; [done|].
  exists ev'. split; [|split; [|lia]].
  - eapply event_of_request_found; [| exact Hpre |].
    + rewrite collection_after_create_ne by done. apply collection_with_eq.
    + unfold ev'. by rewrite !lookup_insert_ne.
  - unfold ev'. rewrite lookup_insert_ne by done. apply lookup_insert_eq.
Qed.

(** ** More properties on sample data *)

(** Three of five seats: confirmed, and the reservation is on record. *)
Lemma reserve_takes_tickets_witness :
  ∃ w',
    create_reservation (sample_request 3) (sample_world 5)
      = (Return (confirmed (generated_oid 0)), w') ∧
    collection (collection_name Reservation) w' =
      [stored (generated_oid 0) (sample_clock 1)
         (Reservation.model_dump (sample_request 3))].
Proof.
  destruct (reserve_takes_tickets (sample_world 5) (sample_request 3)
              (sample_event (VOid sample_oid) 60 5) 5)
    as (w' & pre & post & H1 & _ & _ & _ & H2 & _);
    [reflexivity|reflexivity|simpl; lia|unfold int64_max; simpl; lia|].
  exists w'. split; [exact H1|exact H2].
Defined.

(** An event without its seats refuses one ticket with 400; seats that
    are null make the handler fail. *)
Lemma reserve_event_with_odd_seats_witness :
  create_reservation (sample_request 1) (events_world [sample_event_without_seats])
    = (Raise InsufficientCapacity, events_world [sample_event_without_seats]) ∧
  create_reservation (sample_request 1) (events_world [sample_event_with VNone])
    = (Raise PyError, events_world [sample_event_with VNone]).
Proof.
  split.
  - apply (reserve_event_with_odd_seats (sample_request 1)
             (events_world [sample_event_without_seats]) sample_event_without_seats);
      [reflexivity|simpl; lia|reflexivity].
  - refine (proj2 (reserve_event_with_odd_seats (sample_request 1)
                     (events_world [sample_event_with VNone])
                     (sample_event_with VNone) eq_refl _) VNone eq_refl eq_refl).
    simpl; lia.
Defined.

(** Five seats kept as the text 5 and a request for three: 409. *)
Lemma reserve_event_with_text_seats_witness :
  create_reservation (sample_request 3)
    (events_world [sample_event_with (VStr "5")])
  = (Raise Conflict, tick (events_world [sample_event_with (VStr "5")])).
Proof.
  apply (reserve_event_with_text_seats (sample_request 3)
           (events_world [sample_event_with (VStr "5")]) [] []
           (sample_event_with (VStr "5")) "5" 5);
    [reflexivity|constructor|reflexivity|reflexivity|reflexivity|simpl; lia].
Defined.

(** The sample event under the text of its identifier is not found. *)
Lemma reserve_event_with_hex_text_id_witness :
  create_reservation (sample_request 3)
    (events_world [sample_event (VStr sample_oid) 60 5])
  = (Raise NotFound, events_world [sample_event (VStr sample_oid) 60 5]).
Proof.
  apply (reserve_event_with_hex_text_id (sample_request 3)
           (events_world [sample_event (VStr sample_oid) 60 5])
           (sample_event (VStr sample_oid) 60 5) sample_oid);
    [apply list_elem_of_here|reflexivity|reflexivity|].
  constructor; [discriminate|constructor].
Defined.

(** The first document of an empty store, requested by its identifier. *)
Lemma created_event_can_be_requested_witness :
  event_of_request
    (Reservation.mk (generated_oid 0) "Lena Weiss" "lena@example.com" 2 None)
    (create_document (collection_name Event)
       (Event.model_dump sample_Event) empty_world).2
  = Some (stored (generated_oid 0) (sample_clock 0) (Event.model_dump sample_Event)).
Proof.
  apply (created_event_can_be_requested (Event.model_dump sample_Event) empty_world
           (Reservation.mk (generated_oid 0) "Lena Weiss" "lena@example.com" 2 None));
    [constructor|reflexivity].
Defined.

(** The sample store lists its one event. *)
Lemma list_events_sorted_by_date_witness :
  ∃ e, list_events no_repr (sample_world 5) = (Return [e], sample_world 5) ∧
       StronglySorted (λ a b, datetime_leb (Event.date a) (Event.date b) = true) [e].
Proof.
  assert (∃ e, list_events no_repr (sample_world 5) = (Return [e], sample_world 5))
    as [e He] by (eexists; vm_compute; reflexivity).
  exists e. split; [exact He|].
  apply (list_events_sorted_by_date no_repr (sample_world 5) (sample_world 5) [e]);
    [|exact He].
  repeat constructor.
Defined.

(** An event with no seat in total makes the listing fail. *)
Lemma list_events_all_or_nothing_witness :
  (list_events no_repr (events_world [sample_event (VOid sample_oid) 0 0])).1
  = Raise ValidationError.
Proof.
  apply (list_events_all_or_nothing no_repr
           (events_world [sample_event (VOid sample_oid) 0 0])).
  - repeat constructor.
  - constructor. reflexivity.
Defined.

(** The video of October 2026 under its key. *)
Lemma video_by_month_exact_witness :
  (video_by_month "2026-10" video_world).1 = video_response sample_video.
Proof.
  apply (video_by_month_exact "2026-10" video_world) with (pre := []) (post := []);
    [reflexivity|constructor|reflexivity].
Defined.


(** The sample event, dumped, stored and read back. *)
Lemma Event_dump_round_trip_witness :
  Event.of_kwargs
    (delete "_id" (stored sample_oid sample_time (Event.model_dump sample_Event)))
  = Some sample_Event.
Proof.
  apply (Event_dump_round_trip sample_Event sample_oid sample_time).
  repeat split; simpl; lia.
Defined.

(** Three requests for 3, 3 and 2 of five seats, taking turns. *)
Lemma pool_never_oversells_witness :
  ∃ n, only_event (requested_id (sample_request 3)) n
         (run_pool sample_turns (sample_world 5, arriving sample_requests)).1 ∧
       0 ≤ n ∧
       n + sold (requested_id (sample_request 3))
             (run_pool sample_turns (sample_world 5, arriving sample_requests)).2 = 5.
Proof.
  apply (pool_never_oversells (requested_id (sample_request 3)) 5 sample_requests
           sample_turns (sample_world 5));
    [exact I|apply sample_only_event|lia].
Defined.

(** An empty store, seeded, and one request served. *)
Lemma seed_then_reservations_keep_seats_witness :
  events_inv (seed accept_email empty_world).2 ∧
  events_inv (serve_all [sample_request 3] (seed accept_email empty_world).2).
Proof.
  apply (seed_then_reservations_keep_seats accept_email [sample_request 3] empty_world).
  - constructor.
  - constructor; [simpl; lia|constructor].
Defined.

(** The video of a freshly seeded store. *)
Lemma seeded_video_is_current_witness :
  (current_video (seed accept_email empty_world).2).1 =
  Return (Some (Video.mk "2026-11"
                  "https://cdn.coverr.co/videos/coverr-theatre-actors-having-fun-0044/1080p.mp4"
                  (Some "Aus dem aktuellen Programm"))).
Proof.
  rewrite (seeded_video_is_current accept_email empty_world
             (seed accept_email empty_world).2);
    [reflexivity|by eexists|reflexivity|reflexivity|reflexivity].
Defined.

(** Seeded on the 4th of the month: the workshop is listed last. *)
Lemma seeded_events_listed_witness :
  ∃ e1 e2 e3,
    Event.date e3 = Datetime 2026 11 7 18 0 0 0 ∧
    list_events no_repr (seed accept_email empty_world).2 =
    (Return [e1; e2; e3], (seed accept_email empty_world).2).
Proof.
  destruct (seeded_events_listed accept_email no_repr empty_world)
    as (e1 & e2 & e3 & _ & _ & Hd & H); [by eexists|reflexivity|].
  exists e1, e2, e3. split; [|exact H].
  injection Hd as _ _ Hd. exact Hd.
Defined.

(** The theater of a freshly seeded store. *)
Lemma seeded_theater_info_witness :
  ∃ t, Theater.email t = "kontakt@kabarett-salon.at" ∧
       theater_info accept_email (seed accept_email empty_world).2 =
       (Return (Some (with_email t "kontakt@kabarett-salon.at")),
        (seed accept_email empty_world).2).
Proof.
  destruct (seeded_theater_info accept_email empty_world "kontakt@kabarett-salon.at")
    as (t & _ & Hem & H); [reflexivity..|].
  exists t. split; [exact Hem|exact H].
Defined.

(** A request for three of ten seats, as the model reads it. *)
Lemma accepted_request_is_served_witness :
  (create_reservation (sample_request 3) (sample_world 10)).1
  = Return (confirmed (generated_oid 0)).
Proof.
  apply (accepted_request_is_served accept_email
           (Reservation.model_dump (sample_request 3)) (sample_request 3)
           (sample_world 10) (sample_event (VOid sample_oid) 60 10) 10);
    [reflexivity|reflexivity|reflexivity|unfold int64_max; lia].
Defined.
